(** * LinkUp: link validation and scoring

    A shallow embedding of the validation pipeline of the LinkUp word-chain
    game: the Datamuse access layer ([cachedFetch], [verifyWord],
    [getRelatedWords], [findWordInRelation], [findBestRelation]), the
    validator ([calculateCreativityStars], [isHubWord], [validateLink],
    [validateFinalLink]) and the store's pure helpers ([calculateScore],
    [getMostCreativeLink]); then the puzzle pairs and the cache maintenance
    of the access layer, the actions of the store, and what the page
    computes from them ([loadGame], the used words, the score).

    Conventions of the embedding.
    - A JavaScript [number] is an exact rational ([Q]); the star ratings,
      which the code only ever builds from the literals 1, 2 and 3, are
      integers ([Z]).  Comparisons and the arithmetic of the scorer are
      thereby the mathematical ones; NaN and the infinities are not values
      of the model.
    - A JavaScript string is the list of its UTF-16 code units.  [trim] and
      [encodeURIComponent] follow ECMAScript; [toLowerCase] and
      [parseFloat] are operations of the host runtime and are taken as a
      parameter ([Runtime]), so that every theorem holds for whatever the
      runtime computes.
    - Asynchronous functions are computations over an explicit world (the
      module-level cache and a counter of the observations made of the
      outside), in an error monad: a rejected promise is [Throw].
    - The body of a response is whatever JSON the data source sends: the
      code does not check it against [DatamuseWord[]].  A body is modelled
      as far as the code can tell bodies apart ([Body], [Item], [Tags]),
      with the TypeError it raises on a value of the wrong shape.  The
      score of an entry is a number: a score that is missing or of another
      type, on which the code computes NaN and raises nothing, is not
      modelled. *)

From Stdlib Require Import ZArith QArith Qround Lqa Lia List Ascii String
  DecimalString Bool.
From stdpp Require Import gmap.
Import ListNotations.

Local Open Scope Z_scope.

(** ** Numbers *)

(** [x < y] on numbers, as a boolean. *)
Definition Qlt_bool (x y : Q) : bool := negb (Qle_bool y x).

(** [Math.max(a, b)]. *)
Definition Math_max (a b : Q) : Q := if Qle_bool a b then b else a.

(** [Math.round(x)]: the nearest integer, halves going up. *)
Definition Math_round (x : Q) : Q := inject_Z (Qfloor (x + (1 # 2))%Q).

(** ** Validator: creativity stars (validator.ts) *)

(** The local [stars] of [calculateCreativityStars], as the threshold chain
    on [heat] assigns it, before the frequency cap is looked at. *)
Definition starsFromHeat (heat : Q) : Z :=
  if Qlt_bool (66 # 100) heat then 1
  else if Qle_bool (40 # 100) heat then 2
  else 3.

Definition calculateCreativityStars (heat frequency : Q) : Z :=
  let stars := starsFromHeat heat in
  if Qlt_bool frequency (1 # 100) && (stars =? 3) then 2 else stars.

(** ** Store: chain links and the session score (store.ts) *)

Definition jsstring := list N.

Record ChainLink := {
  link_word : jsstring;
  link_relationLabel : jsstring;
  link_creativityStars : Z;
  link_heat : Q;
  link_isHubWord : bool;
  link_timestamp : Z
}.

Record Score := {
  steps : Q;
  effectiveSteps : Q;
  starBonus : Q;
  finalScore : Q
}.

Definition calculateScore (chainLength penaltySteps totalStars : Q) : Score :=
  let steps := chainLength in
  let effectiveSteps := (steps + penaltySteps)%Q in
  let starBonus := (totalStars * (5 # 10))%Q in
  let finalScore := Math_max 0 (effectiveSteps - starBonus)%Q in
  {| steps := steps;
     effectiveSteps := effectiveSteps;
     starBonus := starBonus;
     finalScore := (Math_round (finalScore * 10) / 10)%Q |}.

(** The reducer of [getMostCreativeLink]: [best] starts as [null]. *)
Definition moreCreative (best : option ChainLink) (link : ChainLink)
  : option ChainLink :=
  match best with
  | None => Some link
  | Some b =>
      if link_creativityStars b <? link_creativityStars link then Some link
      else if (link_creativityStars link =? link_creativityStars b)
              && Qlt_bool (link_heat link) (link_heat b) then Some link
      else Some b
  end.

(** [chain] is [get().chain], the only part of the store that is read. *)
Definition getMostCreativeLink (chain : list ChainLink) : option ChainLink :=
  if (Z.of_nat (length chain) =? 0) then None
  else fold_left moreCreative chain None.

(** ** Strings *)

(** A string literal of the source, as code units. *)
Definition js (s : string) : jsstring :=
  map N_of_ascii (list_ascii_of_string s).

Definition inRange (lo hi c : N) : bool := ((lo <=? c) && (c <=? hi))%N.

(** ECMAScript's WhiteSpace and LineTerminator code points, all of which are
    single code units. *)
Definition isWhiteSpace (c : N) : bool :=
  inRange 9 13 c || (c =? 32)%N || (c =? 160)%N || (c =? 5760)%N
  || inRange 8192 8202 c || (c =? 8232)%N || (c =? 8233)%N || (c =? 8239)%N
  || (c =? 8287)%N || (c =? 12288)%N || (c =? 65279)%N.

Fixpoint trimStart (s : jsstring) : jsstring :=
  match s with
  | c :: rest => if isWhiteSpace c then trimStart rest else s
  | [] => []
  end.

Definition trimEnd (s : jsstring) : jsstring := rev (trimStart (rev s)).

(** [s.trim()]. *)
Definition trim (s : jsstring) : jsstring := trimEnd (trimStart s).

(** [s.startsWith(p)]. *)
Fixpoint startsWith (p s : jsstring) : bool :=
  match p, s with
  | [], _ => true
  | a :: p', b :: s' => (a =? b)%N && startsWith p' s'
  | _ :: _, [] => false
  end.

(** [s.slice(n)] for a non-negative [n]. *)
Definition slice (n : nat) (s : jsstring) : jsstring := drop n s.

(** [a === b] on strings, and [l.includes(x)] on arrays of strings. *)
Definition strEq (a b : jsstring) : bool := bool_decide (a = b).
Definition includes (l : list jsstring) (x : jsstring) : bool :=
  existsb (strEq x) l.

(** The decimal spelling of a non-negative integer, as string concatenation
    produces it. *)
Definition numberToString (n : N) : jsstring :=
  js (NilEmpty.string_of_uint (N.to_uint n)).

(** *** encodeURIComponent *)

(** The characters left alone: letters, digits and [-_.!~*'()]. *)
Definition isUnreserved (c : N) : bool :=
  inRange 65 90 c || inRange 97 122 c || inRange 48 57 c
  || existsb (N.eqb c) [45; 95; 46; 33; 126; 42; 39; 40; 41]%N.

Definition isLeadSurrogate (c : N) : bool := inRange 55296 56319 c.
Definition isTrailSurrogate (c : N) : bool := inRange 56320 57343 c.

Definition hexDigit (n : N) : N := (if n <? 10 then 48 + n else 55 + n)%N.

Definition percentEncode (octet : N) : jsstring :=
  [37; hexDigit (octet / 16); hexDigit (octet mod 16)]%N.

Definition utf8 (cp : N) : list N :=
  (if cp <? 128 then [cp]
   else if cp <? 2048 then [192 + cp / 64; 128 + cp mod 64]
   else if cp <? 65536 then
     [224 + cp / 4096; 128 + (cp / 64) mod 64; 128 + cp mod 64]
   else
     [240 + cp / 262144; 128 + (cp / 4096) mod 64;
      128 + (cp / 64) mod 64; 128 + cp mod 64])%N.

Definition escapeCodePoint (cp : N) : jsstring :=
  concat (map percentEncode (utf8 cp)).

(** [encodeURIComponent(s)]; [None] is the URIError raised at a surrogate
    code unit that is not part of a pair. *)
Fixpoint encodeURIComponent (s : jsstring) : option jsstring :=
  match s with
  | [] => Some []
  | c :: rest =>
      if isUnreserved c then
        option_map (cons c) (encodeURIComponent rest)
      else if isLeadSurrogate c then
        match rest with
        | d :: rest' =>
            if isTrailSurrogate d then
              option_map
                (app (escapeCodePoint
                        ((c - 55296) * 1024 + (d - 56320) + 65536)%N))
                (encodeURIComponent rest')
            else None
        | [] => None
        end
      else if isTrailSurrogate c then None
      else option_map (app (escapeCodePoint c)) (encodeURIComponent rest)
  end.

(** *** The host runtime *)

(** [String.prototype.toLowerCase] and the global [parseFloat] ([None] for
    NaN). *)
Class Runtime := {
  toLowerCase : jsstring -> jsstring;
  parseFloat : jsstring -> option Q
}.

(** ** The outside world *)

(** The [tags] of an entry, as the code can tell them apart: absent or
    falsy ([undefined], [null], [false], [0], the empty string); an array,
    each element a string or not ([None]); any other value. *)
Inductive Tags :=
| NoTags
| TagArray (ts : list (option jsstring))
| TagsNotArray.

(** An object of a body with a string [word] and a number [score]. *)
Record DatamuseWord := {
  word : jsstring;
  score : Q;
  tags : Tags
}.

(** An element of an array body: an entry, or a value on which
    [r.word.toLowerCase()] raises ([null], a number, a boolean, a string,
    an array, an object whose [word] is not a string). *)
Inductive Item :=
| Entry (d : DatamuseWord)
| NoWord.

(** A parsed body, as the code can tell bodies apart: an array; [null]; a
    value that is not an array and whose [length] is 0 (the empty string,
    an object with a [length] of 0); any other value (a number, a boolean,
    a string that is not empty, any other object). *)
Inductive Body :=
| Items (items : list Item)
| NullBody
| ZeroLength
| NotArray.

(** The tags and bodies that have the declared types [string[]] and
    [DatamuseWord[]]. *)
Definition stringTags (ts : list jsstring) : Tags := TagArray (map Some ts).
Definition words (l : list DatamuseWord) : Body := Items (map Entry l).

(** What [fetch] resolves to: [response.ok], [response.status], and the
    body as [response.json()] parses it ([None]: it rejects). *)
Record Response := {
  ok : bool;
  status : Z;
  json : option Body
}.

(** The environment answers the n-th observation made of it: the reading of
    [Date.now()], or the response to a request ([None]: [fetch] rejects). *)
Record Env := {
  clock : nat -> Z;
  network : nat -> jsstring -> option Response
}.

(** The module-level [cache] and the number of observations made so far. *)
Record World := {
  cache : gmap jsstring (Body * Z);
  tick : nat
}.

Inductive JsError :=
| NetworkError
| ApiError (status : Z)
| JsonError
| URIError
| TypeError.

Inductive Outcome (A : Type) :=
| Return (a : A)
| Throw (e : JsError).
Arguments Return {A} a.
Arguments Throw {A} e.

Definition Async (A : Type) : Type := World -> Outcome A * World.

Definition ret {A} (a : A) : Async A := fun w => (Return a, w).

(** A computation that observes nothing, inside an asynchronous one. *)
Definition lift {A} (o : Outcome A) : Async A := fun w => (o, w).

Definition throw {A} (e : JsError) : Async A := fun w => (Throw e, w).

Definition bind {A B} (m : Async A) (k : A -> Async B) : Async B :=
  fun w =>
    match m w with
    | (Return a, w') => k a w'
    | (Throw e, w') => (Throw e, w')
    end.

Notation "'await' x := m 'in' k" := (bind m (fun x => k))
  (at level 10, x name, m at level 200, k at level 200,
   format "'[v' 'await'  x  :=  m  'in' '/' k ']'").

Definition try_catch {A} (m : Async A) (handler : JsError -> Async A)
  : Async A :=
  fun w =>
    match m w with
    | (Return a, w') => (Return a, w')
    | (Throw e, w') => handler e w'
    end.

Definition observed (w : World) : World :=
  {| cache := cache w; tick := S (tick w) |}.

Definition Date_now (env : Env) : Async Z :=
  fun w => (Return (clock env (tick w)), observed w).

Definition fetch (env : Env) (url : jsstring) : Async Response :=
  fun w =>
    (match network env (tick w) url with
     | Some r => Return r
     | None => Throw NetworkError
     end, observed w).

Definition response_json (r : Response) : Async Body :=
  match json r with
  | Some data => ret data
  | None => throw JsonError
  end.

Definition cache_get (url : jsstring) : Async (option (Body * Z)) :=
  fun w => (Return (cache w !! url), w).

Definition cache_set (url : jsstring) (entry : Body * Z) : Async unit :=
  fun w => (Return tt, {| cache := <[url := entry]> (cache w); tick := tick w |}).

Definition encodeURIComponent_or_throw (s : jsstring) : Async jsstring :=
  match encodeURIComponent s with
  | Some e => ret e
  | None => throw URIError
  end.

(** ** Datamuse access (datamuse.ts) *)

Inductive RelationType :=
| rel_syn | rel_trg | rel_jja | rel_jjb | rel_bga | rel_bgb | rel_cns.

(** The string a [RelationType] value is. *)
Definition relationTypeString (r : RelationType) : jsstring :=
  match r with
  | rel_syn => js "rel_syn"
  | rel_trg => js "rel_trg"
  | rel_jja => js "rel_jja"
  | rel_jjb => js "rel_jjb"
  | rel_bga => js "rel_bga"
  | rel_bgb => js "rel_bgb"
  | rel_cns => js "rel_cns"
  end.

Definition RELATION_PRIORITY : list RelationType :=
  [rel_syn; rel_trg; rel_jja; rel_jjb; rel_bga; rel_bgb; rel_cns].

Definition API_BASE : jsstring := js "https://api.datamuse.com".

Definition CACHE_TTL : Z := 1000 * 60 * 30.

(** The result of [findWordInRelation]. *)
Record RelationMatch := {
  rm_word : DatamuseWord;
  rm_topScore : Q
}.

(** The result of [findBestRelation]. *)
Record BestRelation := {
  relationType : RelationType;
  match_ : DatamuseWord;
  topScore : Q
}.

Section Datamuse.
Context `{Runtime} (env : Env).

(** [items.find(r => r.word.toLowerCase() === target)] over the elements of
    an array: the callback raises TypeError on the first element without a
    string [word] that it reaches. *)
Fixpoint findItem (target : jsstring) (items : list Item)
  : Outcome (option DatamuseWord) :=
  match items with
  | [] => Return None
  | NoWord :: _ => Throw TypeError
  | Entry r :: rest =>
      if strEq (toLowerCase (word r)) target then Return (Some r)
      else findItem target rest
  end.

(** [body.find(r => r.word.toLowerCase() === target)]: a value that is not
    an array has no [find] to call. *)
Definition findWord (target : jsstring) (body : Body)
  : Outcome (option DatamuseWord) :=
  match body with
  | Items items => findItem target items
  | NullBody | ZeroLength | NotArray => Throw TypeError
  end.

(** [body.length === 0]: reading a property of [null] raises. *)
Definition lengthIsZero (body : Body) : Outcome bool :=
  match body with
  | Items items => Return (Z.of_nat (List.length items) =? 0)
  | NullBody => Throw TypeError
  | ZeroLength => Return true
  | NotArray => Return false
  end.

(** [console.error] leaves no trace in the model. *)
Definition cachedFetch (url : jsstring) : Async Body :=
  await cached := cache_get url in
  await now := Date_now env in
  let request :=
    try_catch
      (await response := fetch env url in
       await _ := (if negb (ok response)
                   then throw (ApiError (status response))
                   else ret tt) in
       await data := response_json response in
       await _ := cache_set url (data, now) in
       ret data)
      (fun error => ret (Items [])) in
  match cached with
  | Some (data, timestamp) =>
      if now - timestamp <? CACHE_TTL then ret data else request
  | None => request
  end.

Definition verifyWord (word0 : jsstring) : Async (option DatamuseWord) :=
  let normalizedWord := trim (toLowerCase word0) in
  await encoded := encodeURIComponent_or_throw normalizedWord in
  let url := API_BASE ++ js "/words?sp=" ++ encoded
             ++ js "&qe=sp&md=f&max=1" in
  await results := cachedFetch url in
  await found := lift (findWord normalizedWord results) in
  ret found.

(** [tags.find(t => t.startsWith("f:"))] over the elements of an array: the
    callback raises TypeError on the first element that is not a string
    that it reaches. *)
Fixpoint findFrequencyTag (ts : list (option jsstring))
  : Outcome (option jsstring) :=
  match ts with
  | [] => Return None
  | None :: _ => Throw TypeError
  | Some t :: rest =>
      if startsWith (js "f:") t then Return (Some t)
      else findFrequencyTag rest
  end.

Definition getWordFrequency (w : DatamuseWord) : Outcome Q :=
  match tags w with
  | NoTags => Return 0%Q
  | TagsNotArray => Throw TypeError
  | TagArray ts =>
      match findFrequencyTag ts with
      | Throw e => Throw e
      | Return None => Return 0%Q
      | Return (Some freqTag) =>
          match parseFloat (slice 2 freqTag) with
          | None => Return 0%Q
          | Some freq => Return freq
          end
      end
  end.

Definition getRelatedWords (word0 : jsstring) (relationType0 : RelationType)
    (max : N) : Async Body :=
  let normalizedWord := trim (toLowerCase word0) in
  await encoded := encodeURIComponent_or_throw normalizedWord in
  let url := API_BASE ++ js "/words?" ++ relationTypeString relationType0
             ++ js "=" ++ encoded ++ js "&max=" ++ numberToString max in
  cachedFetch url.

(** [related[0]?.score || 1].  Where [related] does not start with an
    entry the value is never used: the [find] that follows raises. *)
Definition topScoreOf (related : Body) : Q :=
  match related with
  | Items (Entry r :: _) => if Qeq_bool (score r) 0 then 1 else score r
  | _ => 1
  end.

Definition findWordInRelation (sourceWord targetWord : jsstring)
    (relationType0 : RelationType) : Async (option RelationMatch) :=
  await related := getRelatedWords sourceWord relationType0 100 in
  await empty := lift (lengthIsZero related) in
  if empty then ret None
  else
    let topScore0 := topScoreOf related in
    let normalizedTarget := trim (toLowerCase targetWord) in
    await found := lift (findWord normalizedTarget related) in
    match found with
    | Some m => ret (Some {| rm_word := m; rm_topScore := topScore0 |})
    | None => ret None
    end.

(** The [for ... of] loop of [findBestRelation] over the kinds still to
    try. *)
Fixpoint findBestRelation_from (kinds : list RelationType)
    (sourceWord targetWord : jsstring) : Async (option BestRelation) :=
  match kinds with
  | [] => ret None
  | relationType0 :: rest =>
      await result := findWordInRelation sourceWord targetWord relationType0 in
      match result with
      | Some r =>
          ret (Some {| relationType := relationType0;
                       match_ := rm_word r;
                       topScore := rm_topScore r |})
      | None => findBestRelation_from rest sourceWord targetWord
      end
  end.

Definition findBestRelation (sourceWord targetWord : jsstring)
  : Async (option BestRelation) :=
  findBestRelation_from RELATION_PRIORITY sourceWord targetWord.

End Datamuse.

(** ** Validator (validator.ts) *)

Definition HUB_WORDS : list jsstring :=
  [js "thing"; js "good"; js "man"; js "time"; js "world"; js "go"; js "get"].

Record ValidationSuccess := {
  vs_word : jsstring;
  vs_relationType : RelationType;
  vs_relationLabel : jsstring;
  vs_heat : Q;
  vs_creativityStars : Z;
  vs_isHubWord : bool;
  vs_frequency : Q
}.

Inductive Reason := not_a_word | no_connection | same_word | already_used.

Record ValidationFailure := {
  vf_word : jsstring;
  vf_reason : Reason;
  vf_message : jsstring
}.

(** The union discriminated by [valid]. *)
Inductive ValidationResult :=
| Valid (v : ValidationSuccess)
| Invalid (f : ValidationFailure).

Definition RELATION_LABELS (r : RelationType) : jsstring :=
  match r with
  | rel_syn => js "Synonym"
  | rel_trg => js "Association"
  | rel_jja => js "Property"
  | rel_jjb => js "Property"
  | rel_bga => js "Phrase"
  | rel_bgb => js "Phrase"
  | rel_cns => js "Slant Link"
  end.

(** The double quote of the [no_connection] message. *)
Definition quote : jsstring := [34%N].

Section Validator.
Context `{Runtime} (env : Env).

Definition isHubWord (word0 : jsstring) : bool :=
  includes HUB_WORDS (trim (toLowerCase word0)).

Definition validateLink (previousWord inputWord : jsstring)
    (usedWords : list jsstring) : Async ValidationResult :=
  let normalizedInput := trim (toLowerCase inputWord) in
  let normalizedPrevious := trim (toLowerCase previousWord) in
  if strEq normalizedInput normalizedPrevious then
    ret (Invalid {| vf_word := inputWord;
                    vf_reason := same_word;
                    vf_message :=
                      js "Can't use the same word twice in a row" |})
  else if includes (map toLowerCase usedWords) normalizedInput then
    ret (Invalid {| vf_word := inputWord;
                    vf_reason := already_used;
                    vf_message := js "This word is already in your chain" |})
  else
    await wordData := verifyWord env normalizedInput in
    match wordData with
    | None =>
        ret (Invalid {| vf_word := inputWord;
                        vf_reason := not_a_word;
                        vf_message := js "Not a valid word" |})
    | Some wordData =>
        await relation :=
          findBestRelation env normalizedPrevious normalizedInput in
        match relation with
        | None =>
            ret (Invalid {| vf_word := inputWord;
                            vf_reason := no_connection;
                            vf_message :=
                              js "No connection found to " ++ quote
                              ++ normalizedPrevious ++ quote |})
        | Some relation =>
            let heat := (score (match_ relation) / topScore relation)%Q in
            await frequency := lift (getWordFrequency wordData) in
            let creativityStars := calculateCreativityStars heat frequency in
            let hubWord := isHubWord normalizedInput in
            ret (Valid {| vs_word := word wordData;
                          vs_relationType := relationType relation;
                          vs_relationLabel :=
                            RELATION_LABELS (relationType relation);
                          vs_heat := heat;
                          vs_creativityStars := creativityStars;
                          vs_isHubWord := hubWord;
                          vs_frequency := frequency |})
        end
    end.

(** [usedWords] takes its default value, the empty array. *)
Definition validateFinalLink (currentWord endWord : jsstring)
  : Async ValidationResult :=
  validateLink currentWord endWord [].

End Validator.

(** ** Datamuse access: puzzle pairs and cache maintenance (datamuse.ts) *)

Record WordPair := {
  pair_start : jsstring;
  pair_end : jsstring
}.

Definition wordPair (s e : string) : WordPair :=
  {| pair_start := js s; pair_end := js e |}.

Definition WORD_PAIRS : list WordPair :=
  [wordPair "ocean" "fire"; wordPair "night" "gold";
   wordPair "stone" "dream"; wordPair "river" "tower";
   wordPair "shadow" "light"; wordPair "forest" "steel";
   wordPair "winter" "song"; wordPair "cloud" "earth";
   wordPair "mirror" "path"; wordPair "thunder" "silk";
   wordPair "crystal" "flame"; wordPair "mountain" "wave";
   wordPair "garden" "storm"; wordPair "silver" "bone";
   wordPair "whisper" "iron"; wordPair "desert" "rain";
   wordPair "memory" "stone"; wordPair "bridge" "moon";
   wordPair "feather" "anchor"; wordPair "sunrise" "shadow";
   wordPair "glass" "thunder"; wordPair "candle" "wind";
   wordPair "echo" "diamond"; wordPair "frost" "ember";
   wordPair "tide" "mountain"; wordPair "spark" "ocean";
   wordPair "castle" "leaf"; wordPair "arrow" "cloud";
   wordPair "pearl" "flame"; wordPair "valley" "star"].

Definition PRACTICE_PAIRS : list WordPair :=
  [wordPair "ocean" "fire"; wordPair "night" "gold";
   wordPair "stone" "dream"; wordPair "river" "tower";
   wordPair "shadow" "light"; wordPair "forest" "steel";
   wordPair "winter" "song"; wordPair "cloud" "earth";
   wordPair "mirror" "path"; wordPair "thunder" "silk";
   wordPair "crystal" "flame"; wordPair "mountain" "wave";
   wordPair "honey" "frost"; wordPair "velvet" "stone";
   wordPair "harbor" "dust"; wordPair "lantern" "seed";
   wordPair "compass" "silk"; wordPair "copper" "snow";
   wordPair "marble" "vine"; wordPair "raven" "bloom"].

(** [table[index]] for an integer [index]: [undefined] ([None]) outside
    the table, and so for every negative index. *)
Definition elementAt {A} (table : list A) (index : Z) : option A :=
  if index <? 0 then None else table !! Z.to_nat index.

(** [getDailyWordPair(seed)] for an integer seed; [%] is the remainder of
    JavaScript, which has the sign of [seed].  The function awaits nothing:
    its promise resolves to this value. *)
Definition getDailyWordPair (seed : Z) : option WordPair :=
  let index := Z.rem seed (Z.of_nat (List.length WORD_PAIRS)) in
  elementAt WORD_PAIRS index.

(** [getRandomWordPair()], [random] being the value [Math.random()]
    returns. *)
Definition getRandomWordPair (random : Q) : option WordPair :=
  let index :=
    Qfloor (random * inject_Z (Z.of_nat (List.length PRACTICE_PAIRS)))%Q in
  elementAt PRACTICE_PAIRS index.

Definition clearCache : Async unit :=
  fun w => (Return tt, {| cache := ∅; tick := tick w |}).

Record CacheStats := {
  stats_size : nat;
  stats_keys : list jsstring
}.

(** [getCacheStats()].  The keys come in the order of the finite map, not
    in the insertion order a JavaScript [Map] keeps. *)
Definition getCacheStats : Async CacheStats :=
  fun w =>
    (Return {| stats_size := size (cache w);
               stats_keys := (map_to_list (cache w)).*1 |}, w).

(** ** Store: the game state and its actions (store.ts) *)

Inductive GameMode := daily | endless.
Inductive GameStatus := loading | playing | won | lost.

Record FailedAttempt := {
  fa_word : jsstring;
  fa_reason : jsstring;
  fa_timestamp : Z
}.

Record GameState := {
  gs_mode : GameMode;
  gs_startWord : jsstring;
  gs_endWord : jsstring;
  gs_dailySeed : Z;
  gs_chain : list ChainLink;
  gs_status : GameStatus;
  gs_penaltySteps : Z;
  gs_lastFailedAttempt : option FailedAttempt;
  gs_endlessGamesPlayed : Z
}.

(** The store together with the [linkup_day] item of [localStorage]. *)
Record Browser := {
  store : GameState;
  linkup_day : option jsstring
}.

(** What [getFullYear()], [getMonth()] (0 to 11) and [getDate()] give for a
    [Date]. *)
Record DateParts := {
  fullYear : Z;
  month : Z;
  dayOfMonth : Z
}.

Definition getDailySeed (date : DateParts) : Z :=
  let year := fullYear date in
  let month := month date in
  let day := dayOfMonth date in
  year * 10000 + (month + 1) * 100 + day.

(** The decimal spelling of an integer. *)
Definition integerToString (z : Z) : jsstring :=
  if z <? 0 then js "-" ++ numberToString (Z.abs_N z)
  else numberToString (Z.to_N z).

(** [getTodayKey()], [now] being the [Date] of the call. *)
Definition getTodayKey (now : DateParts) : jsstring :=
  integerToString (fullYear now) ++ js "-"
  ++ integerToString (month now + 1) ++ js "-"
  ++ integerToString (dayOfMonth now).

Definition initialState : GameState :=
  {| gs_mode := daily; gs_startWord := []; gs_endWord := [];
     gs_dailySeed := 0; gs_chain := []; gs_status := loading;
     gs_penaltySteps := 0; gs_lastFailedAttempt := None;
     gs_endlessGamesPlayed := 0 |}.

Definition gameModeEq (a b : GameMode) : bool :=
  match a, b with
  | daily, daily | endless, endless => true
  | _, _ => false
  end.

Definition setMode (mode : GameMode) (s : GameState) : GameState :=
  {| gs_mode := mode; gs_startWord := gs_startWord s;
     gs_endWord := gs_endWord s; gs_dailySeed := gs_dailySeed s;
     gs_chain := gs_chain s; gs_status := loading;
     gs_penaltySteps := gs_penaltySteps s;
     gs_lastFailedAttempt := gs_lastFailedAttempt s;
     gs_endlessGamesPlayed := gs_endlessGamesPlayed s |}.

(** [set({ status })]. *)
Definition setStatus (status0 : GameStatus) (s : GameState) : GameState :=
  {| gs_mode := gs_mode s; gs_startWord := gs_startWord s;
     gs_endWord := gs_endWord s; gs_dailySeed := gs_dailySeed s;
     gs_chain := gs_chain s; gs_status := status0;
     gs_penaltySteps := gs_penaltySteps s;
     gs_lastFailedAttempt := gs_lastFailedAttempt s;
     gs_endlessGamesPlayed := gs_endlessGamesPlayed s |}.

(** [initGame(startWord, endWord, seed)], [today] being the [Date] read by
    [getTodayKey]. *)
Definition initGame (startWord endWord : jsstring) (seed : Z)
    (today : DateParts) (b : Browser) : Browser :=
  let todayKey := getTodayKey today in
  let storedKey := linkup_day b in
  let currentMode := gs_mode (store b) in
  if gameModeEq currentMode daily
     && bool_decide (storedKey = Some todayKey)
     && (0 <? Z.of_nat (List.length (gs_chain (store b))))
     && strEq (gs_startWord (store b)) startWord
  then {| store := setStatus playing (store b); linkup_day := linkup_day b |}
  else
    {| store :=
         {| gs_mode := gs_mode (store b); gs_startWord := startWord;
            gs_endWord := endWord; gs_dailySeed := seed; gs_chain := [];
            gs_status := playing; gs_penaltySteps := 0;
            gs_lastFailedAttempt := None;
            gs_endlessGamesPlayed := gs_endlessGamesPlayed (store b) |};
       linkup_day := Some todayKey |}.

(** [initEndlessGame(startWord, endWord)], [now] being [Date.now()]. *)
Definition initEndlessGame (startWord endWord : jsstring) (now : Z)
    (s : GameState) : GameState :=
  {| gs_mode := endless; gs_startWord := startWord; gs_endWord := endWord;
     gs_dailySeed := now; gs_chain := []; gs_status := playing;
     gs_penaltySteps := 0; gs_lastFailedAttempt := None;
     gs_endlessGamesPlayed := gs_endlessGamesPlayed s |}.

(** [addLink(validation)], [now] being [Date.now()]. *)
Definition addLink `{Runtime} (validation : ValidationSuccess) (now : Z)
    (s : GameState) : GameState :=
  let newLink :=
    {| link_word := vs_word validation;
       link_relationLabel := vs_relationLabel validation;
       link_creativityStars := vs_creativityStars validation;
       link_heat := vs_heat validation;
       link_isHubWord := vs_isHubWord validation;
       link_timestamp := now |} in
  let newPenalty :=
    if vs_isHubWord validation then gs_penaltySteps s + 1
    else gs_penaltySteps s in
  let isComplete :=
    strEq (toLowerCase (vs_word validation)) (toLowerCase (gs_endWord s)) in
  {| gs_mode := gs_mode s; gs_startWord := gs_startWord s;
     gs_endWord := gs_endWord s; gs_dailySeed := gs_dailySeed s;
     gs_chain := gs_chain s ++ [newLink];
     gs_status := if isComplete then won else playing;
     gs_penaltySteps := newPenalty;
     gs_lastFailedAttempt := None;
     gs_endlessGamesPlayed := gs_endlessGamesPlayed s |}.

Definition setLastFailedAttempt (a : option FailedAttempt) (s : GameState)
  : GameState :=
  {| gs_mode := gs_mode s; gs_startWord := gs_startWord s;
     gs_endWord := gs_endWord s; gs_dailySeed := gs_dailySeed s;
     gs_chain := gs_chain s; gs_status := gs_status s;
     gs_penaltySteps := gs_penaltySteps s;
     gs_lastFailedAttempt := a;
     gs_endlessGamesPlayed := gs_endlessGamesPlayed s |}.

(** [recordFailure(word, reason)], [now] being [Date.now()]. *)
Definition recordFailure (word0 reason : jsstring) (now : Z) (s : GameState)
  : GameState :=
  setLastFailedAttempt
    (Some {| fa_word := word0; fa_reason := reason; fa_timestamp := now |}) s.

Definition clearFailure (s : GameState) : GameState :=
  setLastFailedAttempt None s.

Definition completeGame (s : GameState) : GameState :=
  {| gs_mode := gs_mode s; gs_startWord := gs_startWord s;
     gs_endWord := gs_endWord s; gs_dailySeed := gs_dailySeed s;
     gs_chain := gs_chain s; gs_status := won;
     gs_penaltySteps := gs_penaltySteps s;
     gs_lastFailedAttempt := gs_lastFailedAttempt s;
     gs_endlessGamesPlayed :=
       if gameModeEq (gs_mode s) endless then gs_endlessGamesPlayed s + 1
       else gs_endlessGamesPlayed s |}.

Definition resetGame (b : Browser) : Browser :=
  {| store :=
       {| gs_mode := gs_mode (store b); gs_startWord := [];
          gs_endWord := []; gs_dailySeed := 0; gs_chain := [];
          gs_status := loading; gs_penaltySteps := 0;
          gs_lastFailedAttempt := None;
          gs_endlessGamesPlayed := gs_endlessGamesPlayed (store b) |};
     linkup_day := None |}.

Definition playAgain (s : GameState) : GameState :=
  {| gs_mode := gs_mode s; gs_startWord := gs_startWord s;
     gs_endWord := gs_endWord s; gs_dailySeed := gs_dailySeed s;
     gs_chain := []; gs_status := loading; gs_penaltySteps := 0;
     gs_lastFailedAttempt := None;
     gs_endlessGamesPlayed := gs_endlessGamesPlayed s |}.

Definition getCurrentWord (s : GameState) : jsstring :=
  match last (gs_chain s) with
  | None => gs_startWord s
  | Some l => link_word l
  end.

Definition getChainLength (s : GameState) : Z :=
  Z.of_nat (List.length (gs_chain s)).

Definition getTotalStars (s : GameState) : Z :=
  fold_left (fun sum l => sum + link_creativityStars l) (gs_chain s) 0.

(** ** Page: what the component computes from the store (page.tsx) *)

(** The [usedWords] that [handleSubmit] builds from the [startWord] and
    the [chain] of a state. *)
Definition usedWordsOf (s : GameState) : list jsstring :=
  gs_startWord s :: map link_word (gs_chain s).

(** The [score] shown for a won game. *)
Definition wonScore (s : GameState) : Score :=
  calculateScore (inject_Z (getChainLength s)) (inject_Z (gs_penaltySteps s))
    (inject_Z (getTotalStars s)).

(** [loadGame(gameMode)]: [date] is the [Date] that [getDailySeed] reads,
    [today] the one that [getTodayKey] reads after it, [random] the value
    of [Math.random()] and [now] that of [Date.now()]. *)
Definition loadGame (gameMode : GameMode) (date today : DateParts)
    (random : Q) (now : Z) (b : Browser) : Browser :=
  match gameMode with
  | daily =>
      let seed := getDailySeed date in
      match getDailyWordPair seed with
      | Some p => initGame (pair_start p) (pair_end p) seed today b
      | None => b
      end
  | endless =>
      match getRandomWordPair random with
      | Some p =>
          {| store := initEndlessGame (pair_start p) (pair_end p) now
                        (store b);
             linkup_day := linkup_day b |}
      | None => b
      end
  end.

(** ** Concrete runtimes and environments, for evaluating the model *)

Definition asciiLower (c : N) : N := (if inRange 65 90 c then c + 32 else c)%N.

Definition digitValue (c : N) : option Z :=
  if inRange 48 57 c then Some (Z.of_N c - 48) else None.

(** The digits at the front of [s], as a number, with the rest of [s]. *)
Fixpoint readDigits (acc : Z) (s : jsstring) : Z * jsstring :=
  match s with
  | c :: rest =>
      match digitValue c with
      | Some d => readDigits (10 * acc + d) rest
      | None => (acc, s)
      end
  | [] => (acc, [])
  end.

(** An unsigned decimal numeral [ddd] or [ddd.ddd] at the front of [s]. *)
Definition readDecimal (s : jsstring) : option Q :=
  match s with
  | c :: _ =>
      if inRange 48 57 c then
        let '(whole, rest) := readDigits 0 s in
        match rest with
        | dot :: frac =>
            if (dot =? 46)%N then
              let '(num, rest') := readDigits 0 frac in
              let places := (List.length frac - List.length rest')%nat in
              Some (inject_Z whole + (num # Pos.pow 10 (Pos.of_nat places)))%Q
            else Some (inject_Z whole)
        | [] => Some (inject_Z whole)
        end
      else None
  | [] => None
  end.

(** A runtime that lower-cases the letters A to Z and reads unsigned decimal
    numerals: what the host computes on ASCII words and on the frequency
    tags of Datamuse. *)
Definition asciiRuntime : Runtime :=
  {| toLowerCase := map asciiLower; parseFloat := readDecimal |}.

Definition okResponse (data : list DatamuseWord) : Response :=
  {| ok := true; status := 200; json := Some (words data) |}.

(** A data source that answers each listed URL with its list and every
    other URL with the empty list, at time 0. *)
Definition tableEnv (table : list (jsstring * list DatamuseWord)) : Env :=
  {| clock := fun _ => 0;
     network := fun _ url =>
       match find (fun e => strEq (fst e) url) table with
       | Some e => Some (okResponse (snd e))
       | None => Some (okResponse [])
       end |}.

(** A data source every request to which fails in transport. *)
Definition offlineEnv : Env :=
  {| clock := fun _ => 0; network := fun _ _ => None |}.

Definition freshWorld : World := {| cache := ∅; tick := 0 |}.

Definition entry (w : string) (s : Q) : DatamuseWord :=
  {| word := js w; score := s; tags := NoTags |}.

Definition verifyCatUrl : jsstring :=
  js "https://api.datamuse.com/words?sp=cat&qe=sp&md=f&max=1".

Definition relatedDogUrl (kind : string) : jsstring :=
  js "https://api.datamuse.com/words?" ++ js kind ++ js "=dog&max=100".

Definition catEntry : DatamuseWord :=
  {| word := js "cat"; score := 1000; tags := stringTags [js "f:23.5"] |}.

(** "cat" is a word, the second-ranked trigger of "dog" and also one of
    its bigram followers. *)
Definition dogCatEnv : Env :=
  tableEnv
    [(verifyCatUrl, [catEntry]);
     (relatedDogUrl "rel_trg",
      [entry "bark" 2000; entry "cat" 900; entry "leash" 400]);
     (relatedDogUrl "rel_bga", [entry "cat" 50])].

(** "cat" is both a synonym and a trigger of "dog". *)
Definition synTrgEnv : Env :=
  tableEnv
    [(verifyCatUrl, [catEntry]);
     (relatedDogUrl "rel_syn", [entry "hound" 500; entry "cat" 100]);
     (relatedDogUrl "rel_trg", [entry "cat" 900])].

(** The only synonym of "dog" is "cat", with score 0. *)
Definition zeroTopEnv : Env :=
  tableEnv
    [(verifyCatUrl, [catEntry]);
     (relatedDogUrl "rel_syn", [entry "cat" 0])].

(** The triggers of "dog" do not come best first. *)
Definition unrankedEnv : Env :=
  tableEnv
    [(verifyCatUrl, [catEntry]);
     (relatedDogUrl "rel_trg", [entry "bark" 100; entry "cat" 900])].

(** The two triggers of "dog" have the same score. *)
Definition tieEnv : Env :=
  tableEnv
    [(verifyCatUrl, [catEntry]);
     (relatedDogUrl "rel_trg", [entry "bark" 100; entry "cat" 100])].

(** A data source that answers each listed URL with its body, of whatever
    shape, and every other URL with the empty array. *)
Definition bodyEnv (table : list (jsstring * Body)) : Env :=
  {| clock := fun _ => 0;
     network := fun _ url =>
       match find (fun e => strEq (fst e) url) table with
       | Some e => Some {| ok := true; status := 200; json := Some (snd e) |}
       | None => Some (okResponse [])
       end |}.


(** The synonyms of "dog" are answered with an object, [{"error": ...}],
    instead of an array. *)
Definition objectSynonymsEnv : Env :=
  bodyEnv [(verifyCatUrl, words [catEntry]);
           (relatedDogUrl "rel_syn", NotArray)].

(** The first trigger of "dog" has no [word]. *)
Definition noWordEnv : Env :=
  bodyEnv [(verifyCatUrl, words [catEntry]);
           (relatedDogUrl "rel_trg", Items [NoWord; Entry (entry "cat" 900)])].


(** A word that is one unpaired surrogate code unit. *)
Definition loneSurrogate : jsstring := [55296%N].

(** A world whose cache holds the verification of "cat", stored at time
    0. *)
Definition cachedCatWorld : World :=
  {| cache := {[ verifyCatUrl := (words [catEntry], 0) ]}; tick := 0 |}.

(** An endless game from "dog" to "moon", with nothing played yet. *)
Definition dogGame : GameState :=
  initEndlessGame (js "dog") (js "moon") 0 initialState.

(** A link of a chain, for the examples. *)
Definition link (w : string) (stars : Z) (heat : Q) : ChainLink :=
  {| link_word := js w; link_relationLabel := js "Association";
     link_creativityStars := stars; link_heat := heat;
     link_isHubWord := false; link_timestamp := 0 |}.

(** ** Vocabulary of the statements *)

(** [b] is at least as creative as [l]: more stars, or as many and no more
    heat. *)
Definition atLeastAsCreative (b l : ChainLink) : Prop :=
  (link_creativityStars l < link_creativityStars b)%Z
  \/ (link_creativityStars l = link_creativityStars b
      /\ (link_heat b <= link_heat l)%Q).

(** [s.toLowerCase().trim()], the normal form the code compares words in. *)
Definition normalize `{Runtime} (s : jsstring) : jsstring :=
  trim (toLowerCase s).

(** [s] holds no unpaired surrogate: [encodeURIComponent] accepts it. *)
Definition encodable (s : jsstring) : Prop := encodeURIComponent s <> None.

(** The entry [r] of a result list is the word [target], case apart. *)
Definition matchesTarget `{Runtime} (target : jsstring) (r : DatamuseWord)
  : bool :=
  strEq (toLowerCase (word r)) target.

(** A request failed in transport: [fetch] rejected, the status was not a
    success, or the body was not JSON. *)
Definition transportFailure (o : option Response) : Prop :=
  match o with
  | None => True
  | Some r => ok r = false \/ json r = None
  end.

(** The computation [m] returns a value from every world. *)
Definition returns {A} (m : Async A) : Prop :=
  forall w, exists a w', m w = (Return a, w').

(** The entries of a body that is an array of entries, as the declared type
    [DatamuseWord[]] has it. *)
Fixpoint entriesOf (items : list Item) : option (list DatamuseWord) :=
  match items with
  | [] => Some []
  | Entry d :: rest => option_map (cons d) (entriesOf rest)
  | NoWord :: _ => None
  end.

Definition asWords (body : Body) : option (list DatamuseWord) :=
  match body with
  | Items items => entriesOf items
  | NullBody | ZeroLength | NotArray => None
  end.

(** The tags are absent or an array of strings. *)
Definition typedTags (t : Tags) : bool :=
  match t with
  | NoTags => true
  | TagArray ts =>
      forallb (fun e => match e with Some _ => true | None => false end) ts
  | TagsNotArray => false
  end.

(** The body has the declared type: an array of entries whose tags are
    absent or arrays of strings. *)
Definition typedBody (body : Body) : bool :=
  match asWords body with
  | Some l => forallb (fun d => typedTags (tags d)) l
  | None => false
  end.

(** The body is an array of entries. *)
Definition wordArray (body : Body) : bool :=
  match asWords body with
  | Some _ => true
  | None => false
  end.

(** Every body the data source sends has the shape [P]; every body in the
    cache of [w] has it. *)
Definition sourceSends (P : Body -> bool) (env : Env) : Prop :=
  forall n url r body,
    network env n url = Some r -> json r = Some body -> P body = true.

Definition cacheHolds (P : Body -> bool) (w : World) : Prop :=
  forall url body timestamp,
    cache w !! url = Some (body, timestamp) -> P body = true.

(** From every world whose cache holds bodies of shape [P], [m] returns a
    value that satisfies [Q] and leaves such a world. *)
Definition runs {A} (P : Body -> bool) (Q : A -> Prop) (m : Async A)
  : Prop :=
  forall w,
    cacheHolds P w ->
    exists a w', m w = (Return a, w') /\ Q a /\ cacheHolds P w'.

(** [Answers env source kinds w lists]: queried for [source] under each of
    [kinds] in turn, starting in world [w], the data source answers with
    arrays of entries, the result lists [lists]. *)
Inductive Answers `{Runtime} (env : Env) (source : jsstring)
  : list RelationType -> World -> list (list DatamuseWord) -> Prop :=
| Answers_nil w : Answers env source [] w []
| Answers_cons kind kinds w body related w' lists :
    getRelatedWords env source kind 100 w = (Return body, w') ->
    asWords body = Some related ->
    Answers env source kinds w' lists ->
    Answers env source (kind :: kinds) w (related :: lists).

(** [Queried env source kinds w bodies w']: the queries for [source] under
    each of [kinds] in turn, run from world [w], return the bodies [bodies]
    and end in world [w']. *)
Inductive Queried `{Runtime} (env : Env) (source : jsstring)
  : list RelationType -> World -> list Body -> World -> Prop :=
| Queried_nil w : Queried env source [] w [] w
| Queried_cons kind kinds w body w1 bodies w' :
    getRelatedWords env source kind 100 w = (Return body, w1) ->
    Queried env source kinds w1 bodies w' ->
    Queried env source (kind :: kinds) w (body :: bodies) w'.

(** The cache of [w] holds nothing for [url] that [cachedFetch] would
    serve at its next reading of the clock: no entry, or one aged
    [CACHE_TTL] or more. *)
Definition stale (env : Env) (w : World) (url : jsstring) : Prop :=
  match cache w !! url with
  | None => True
  | Some (_, timestamp) => CACHE_TTL <= clock env (tick w) - timestamp
  end.

(** What a request contributes: the parsed body of a successful response,
    the empty list otherwise. *)
Definition networkAnswer (o : option Response) : Body :=
  match o with
  | Some r => if ok r then default (Items []) (json r) else Items []
  | None => Items []
  end.

(** Run from any world, [m] makes at most [n] observations of the outside
    (readings of the clock and requests) and drops no entry of the
    cache. *)
Definition within {A} (n : nat) (m : Async A) : Prop :=
  forall w,
    (tick w <= tick (snd (m w)) <= tick w + n)%nat
    /\ forall url, is_Some (cache w !! url) ->
                   is_Some (cache (snd (m w)) !! url).

(** A [Date] whose month and day of the month are in the ranges
    [getMonth()] and [getDate()] return. *)
Definition validDate (d : DateParts) : Prop :=
  0 <= month d <= 11 /\ 1 <= dayOfMonth d <= 31.

(** The calls the page makes on the store. *)
Inductive Action :=
| SetMode (mode : GameMode)
| InitGame (startWord endWord : jsstring) (seed : Z) (today : DateParts)
| InitEndlessGame (startWord endWord : jsstring) (now : Z)
| AddLink (validation : ValidationSuccess) (now : Z)
| RecordFailure (word0 reason : jsstring) (now : Z)
| ClearFailure
| CompleteGame
| ResetGame
| PlayAgain.

Definition onStore (f : GameState -> GameState) (b : Browser) : Browser :=
  {| store := f (store b); linkup_day := linkup_day b |}.

Definition perform `{Runtime} (b : Browser) (a : Action) : Browser :=
  match a with
  | SetMode mode => onStore (setMode mode) b
  | InitGame startWord endWord seed today =>
      initGame startWord endWord seed today b
  | InitEndlessGame startWord endWord now =>
      onStore (initEndlessGame startWord endWord now) b
  | AddLink validation now => onStore (addLink validation now) b
  | RecordFailure word0 reason now =>
      onStore (recordFailure word0 reason now) b
  | ClearFailure => onStore clearFailure b
  | CompleteGame => onStore completeGame b
  | ResetGame => resetGame b
  | PlayAgain => onStore playAgain b
  end.

(** The number of links of a chain made with a hub word. *)
Definition hubLinks (chain : list ChainLink) : Z :=
  Z.of_nat (List.length (filter (fun l => link_isHubWord l = true) chain)).

(** The data source answers each URL the same way at every moment. *)
Definition steady (env : Env) : Prop :=
  forall (n m : nat) url,
    networkAnswer (network env n url) = networkAnswer (network env m url).

(** Every list in the cache of [w] is what the data source answers for its
    URL. *)
Definition agrees (env : Env) (w : World) : Prop :=
  forall url data timestamp,
    cache w !! url = Some (data, timestamp) ->
    data = networkAnswer (network env 0%nat url).

(** From every world whose cache agrees with the data source, [m] gives
    the same outcome and leaves such a world. *)
Definition repeatable {A} (env : Env) (m : Async A) : Prop :=
  exists r, forall w,
    agrees env w -> fst (m w) = r /\ agrees env (snd (m w)).

(** * Properties *)

(** ** Comparisons on numbers *)

Lemma Qle_bool_reflect (x y : Q) : reflect (x <= y)%Q (Qle_bool x y).
Proof.
  destruct (Qle_bool x y) eqn:E; constructor.
  - now apply Qle_bool_iff.
  - intros Hle. apply Qle_bool_iff in Hle. congruence.
Qed.

Lemma Qlt_bool_reflect (x y : Q) : reflect (x < y)%Q (Qlt_bool x y).
Proof.
  unfold Qlt_bool.
  destruct (Qle_bool_reflect y x); constructor; lra.
Qed.

(** Case analysis on every comparison of numbers in the goal. *)
Ltac number_cases :=
  repeat match goal with
  | |- context [Qlt_bool ?a ?b] => destruct (Qlt_bool_reflect a b)
  | |- context [Qle_bool ?a ?b] => destruct (Qle_bool_reflect a b)
  end.

(** ** The creativity scorer *)

Section CreativityScorer.
Local Open Scope Q_scope.

Lemma starsFromHeat_obvious (heat : Q) :
  66 # 100 < heat -> starsFromHeat heat = 1%Z.
Proof. intros. unfold starsFromHeat. number_cases; solve [reflexivity | lra]. Qed.

Lemma starsFromHeat_moderate (heat : Q) :
  40 # 100 <= heat -> heat <= 66 # 100 -> starsFromHeat heat = 2%Z.
Proof. intros. unfold starsFromHeat. number_cases; solve [reflexivity | lra]. Qed.

Lemma starsFromHeat_creative (heat : Q) :
  heat < 40 # 100 -> starsFromHeat heat = 3%Z.
Proof. intros. unfold starsFromHeat. number_cases; solve [reflexivity | lra]. Qed.

Lemma starsFromHeat_range (heat : Q) :
  starsFromHeat heat = 1%Z \/ starsFromHeat heat = 2%Z
  \/ starsFromHeat heat = 3%Z.
Proof. unfold starsFromHeat. number_cases; auto. Qed.

(** Where the cap does not apply, the result is the rating by heat. *)
Lemma calculateCreativityStars_uncapped (heat frequency : Q) :
  1 # 100 <= frequency ->
  calculateCreativityStars heat frequency = starsFromHeat heat.
Proof.
  intros Hcommon. unfold calculateCreativityStars.
  destruct (Qlt_bool_reflect frequency (1 # 100)); [lra | reflexivity].
Qed.

(** C1, as the code has it.  Before the rarity cap the rating is 1 when
    heat > 0.66, 2 when 0.40 <= heat <= 0.66 and 3 when heat < 0.40; the
    comparison with 0.66 is strict, so heat = 0.66 itself is rated 2, and
    heat = 0.40 is rated 2.  This rating is what
    [calculateCreativityStars] returns when the cap does not apply. *)
Theorem C1_star_thresholds (heat : Q) :
  (66 # 100 < heat -> starsFromHeat heat = 1%Z)
  /\ (40 # 100 <= heat /\ heat <= 66 # 100 -> starsFromHeat heat = 2%Z)
  /\ (heat < 40 # 100 -> starsFromHeat heat = 3%Z)
  /\ starsFromHeat (66 # 100) = 2%Z
  /\ starsFromHeat (40 # 100) = 2%Z
  /\ (forall frequency, 1 # 100 <= frequency ->
        calculateCreativityStars heat frequency = starsFromHeat heat).
Proof.
  split; [apply starsFromHeat_obvious |].
  split; [intros [Hlo Hhi]; now apply starsFromHeat_moderate |].
  split; [apply starsFromHeat_creative |].
  split; [reflexivity |]. split; [reflexivity |].
  intros frequency. apply calculateCreativityStars_uncapped.
Qed.

(** C1 as stated fails at the upper boundary: at heat = 0.66 the rating
    before the cap, and the final rating whatever the frequency, is 2 and
    not 1. *)
Lemma C1_boundary_counterexample :
  starsFromHeat (66 # 100) <> 1%Z
  /\ calculateCreativityStars (66 # 100) 1 <> 1%Z
  /\ calculateCreativityStars (66 # 100) 0 <> 1%Z.
Proof. repeat split; discriminate. Qed.

(** C5.  A rating of 3 is capped to 2 when frequency < 0.01 and kept
    otherwise; ratings 1 and 2 are returned whatever the frequency. *)
Theorem C5_rarity_clamp (heat frequency : Q) :
  (frequency < 1 # 100 -> starsFromHeat heat = 3%Z ->
   calculateCreativityStars heat frequency = 2%Z)
  /\ (starsFromHeat heat <> 3%Z ->
      calculateCreativityStars heat frequency = starsFromHeat heat)
  /\ (1 # 100 <= frequency ->
      calculateCreativityStars heat frequency = starsFromHeat heat)
  /\ starsFromHeat (10 # 100) = 3%Z
  /\ calculateCreativityStars (10 # 100) (5 # 1000) = 2%Z
  /\ calculateCreativityStars (10 # 100) (2 # 100) = 3%Z.
Proof.
  unfold calculateCreativityStars. repeat split.
  - intros Hrare ->. destruct (Qlt_bool_reflect frequency (1 # 100)); [reflexivity | lra].
  - intros Hnot3. destruct (Z.eqb_spec (starsFromHeat heat) 3); [contradiction |].
    now rewrite andb_false_r.
  - apply calculateCreativityStars_uncapped.
Qed.

End CreativityScorer.

(** ** The session scorer *)

Section SessionScorer.
Local Open Scope Q_scope.

Lemma Math_max_0_nonneg (x : Q) : 0 <= Math_max 0 x.
Proof. unfold Math_max. number_cases; lra. Qed.

Lemma Math_max_0_spec (x : Q) :
  (0 <= x -> Math_max 0 x = x) /\ (x < 0 -> Math_max 0 x = 0).
Proof. unfold Math_max. split; intros; number_cases; solve [reflexivity | lra]. Qed.

(** [Math.round(x * 10) / 10] is the multiple of 1/10 nearest to [x], the
    upper one when two are equally near. *)
Lemma round_one_decimal (x : Q) :
  exists k : Z,
    Math_round (x * 10) / 10 == k # 10
    /\ (k # 10) - (1 # 20) <= x /\ x < (k # 10) + (1 # 20).
Proof.
  unfold Math_round. set (y := x * 10 + (1 # 2)).
  exists (Qfloor y).
  pose proof (Qfloor_le y) as Hlo.
  pose proof (Qlt_floor y) as Hhi.
  rewrite inject_Z_plus in Hhi.
  assert (Hk : inject_Z (Qfloor y) / 10 == Qfloor y # 10).
  { unfold Qeq, Qdiv, Qmult, Qinv, inject_Z. simpl. lia. }
  split; [exact Hk |].
  rewrite <- Hk. subst y.
  change (inject_Z 1) with 1 in Hhi.
  generalize dependent (inject_Z (Qfloor (x * 10 + (1 # 2)))).
  intros z Hlo Hhi _. unfold Qdiv. change (/ 10) with (1 # 10).
  split; lra.
Qed.

(** C2.  [calculateScore] returns the chain length as [steps], their sum
    with the penalties as [effectiveSteps], half the stars as [starBonus],
    and as [finalScore] the value max(0, effectiveSteps - starBonus)
    rounded to one decimal place: a multiple of 1/10 at most 1/20 away,
    halves going up.  It is 0 whenever effectiveSteps < starBonus, and
    calculateScore(5, 1, 6) has effectiveSteps 6, starBonus 3 and
    finalScore 3.  None of this needs the arguments to be non-negative. *)
Theorem C2_calculateScore (chainLength hubPenaltyCount totalStars : Q) :
  let s := calculateScore chainLength hubPenaltyCount totalStars in
  steps s = chainLength
  /\ effectiveSteps s == chainLength + hubPenaltyCount
  /\ starBonus s == totalStars * (1 # 2)
  /\ (exists k : Z,
        finalScore s == k # 10
        /\ (k # 10) - (1 # 20) <= Math_max 0 (effectiveSteps s - starBonus s)
        /\ Math_max 0 (effectiveSteps s - starBonus s) < (k # 10) + (1 # 20))
  /\ 0 <= finalScore s
  /\ (effectiveSteps s < starBonus s -> finalScore s == 0)
  /\ effectiveSteps (calculateScore 5 1 6) == 6
  /\ starBonus (calculateScore 5 1 6) == 3
  /\ finalScore (calculateScore 5 1 6) == 3.
Proof.
  cbv zeta. unfold calculateScore.
  cbn [steps effectiveSteps starBonus finalScore].
  repeat split; try reflexivity.
  - lra.
  - apply round_one_decimal.
  - destruct (round_one_decimal
                (Math_max 0 (chainLength + hubPenaltyCount
                             - totalStars * (5 # 10)))) as (k & -> & Hlo & Hhi).
    pose proof (Math_max_0_nonneg
                  (chainLength + hubPenaltyCount - totalStars * (5 # 10))).
    assert (0 <= k)%Z.
    { destruct (Z_lt_le_dec k 0) as [Hneg | ]; [| assumption].
      assert (Hk : k # 10 <= -1 # 10) by (unfold Qle; simpl; lia).
      lra. }
    unfold Qle. simpl. lia.
  - intros Hless.
    destruct (Math_max_0_spec
                (chainLength + hubPenaltyCount - totalStars * (5 # 10)))
      as [_ Hzero].
    rewrite Hzero by lra. reflexivity.
Qed.

End SessionScorer.

(** ** The most creative link *)

Section MostCreative.
Local Open Scope Q_scope.

Lemma atLeastAsCreative_refl (b : ChainLink) : atLeastAsCreative b b.
Proof. right. split; [reflexivity | lra]. Qed.

Lemma atLeastAsCreative_trans (a b c : ChainLink) :
  atLeastAsCreative a b -> atLeastAsCreative b c -> atLeastAsCreative a c.
Proof.
  unfold atLeastAsCreative.
  intros [Hab | [Hab Hab']] [Hbc | [Hbc Hbc']].
  - left; lia.
  - left; lia.
  - left; lia.
  - right; split; [lia | lra].
Qed.

Lemma moreCreative_step (b l : ChainLink) :
  exists b', moreCreative (Some b) l = Some b'
             /\ (b' = b \/ b' = l)
             /\ atLeastAsCreative b' b /\ atLeastAsCreative b' l.
Proof.
  unfold moreCreative, atLeastAsCreative.
  destruct (Z.ltb_spec (link_creativityStars b) (link_creativityStars l)).
  - exists l. repeat split; auto. right; split; [reflexivity | lra].
  - destruct (Z.eqb_spec (link_creativityStars l) (link_creativityStars b));
      simpl.
    + destruct (Qlt_bool_reflect (link_heat l) (link_heat b)).
      * exists l. repeat split; auto; right; split; auto; lra.
      * exists b. repeat split; auto; right; split; auto; lra.
    + exists b. repeat split; auto.
      * right; split; [reflexivity | lra].
      * left; lia.
Qed.

Lemma fold_moreCreative (chain : list ChainLink) (b : ChainLink) :
  exists best, fold_left moreCreative chain (Some b) = Some best
               /\ (best = b \/ In best chain)
               /\ atLeastAsCreative best b
               /\ (forall l, In l chain -> atLeastAsCreative best l).
Proof.
  revert b. induction chain as [| l chain IH]; intros b; cbn [fold_left].
  - exists b. repeat split; auto using atLeastAsCreative_refl.
    intros l [].
  - destruct (moreCreative_step b l) as (b' & -> & Hor & Hb & Hl).
    destruct (IH b') as (best & Hfold & Hin & Hb' & Hall).
    exists best. repeat split.
    + exact Hfold.
    + destruct Hin as [-> | Hin]; [| simpl; auto].
      destruct Hor as [-> | ->]; simpl; auto.
    + eauto using atLeastAsCreative_trans.
    + intros x [<- | Hx]; [| auto].
      eauto using atLeastAsCreative_trans.
Qed.

(** C7.  On the empty chain [getMostCreativeLink] returns none; otherwise
    it returns a link of the chain whose rating no other link exceeds and
    whose heat is no higher than that of any link with the same rating. *)
Theorem C7_getMostCreativeLink (chain : list ChainLink) :
  getMostCreativeLink [] = None
  /\ (chain <> [] ->
      exists best,
        getMostCreativeLink chain = Some best
        /\ In best chain
        /\ (forall l, In l chain ->
              (link_creativityStars l <= link_creativityStars best)%Z)
        /\ (forall l, In l chain ->
              link_creativityStars l = link_creativityStars best ->
              link_heat best <= link_heat l)).
Proof.
  split; [reflexivity |].
  destruct chain as [| l chain]; [congruence | intros _].
  unfold getMostCreativeLink.
  replace (Z.of_nat (List.length (l :: chain)) =? 0)%Z with false
    by (symmetry; apply Z.eqb_neq; simpl List.length; lia).
  cbn [fold_left moreCreative].
  destruct (fold_moreCreative chain l) as (best & -> & Hin & Hl & Hall).
  assert (Hdom : forall x, In x (l :: chain) -> atLeastAsCreative best x).
  { intros x [<- | Hx]; auto. }
  exists best. repeat split.
  - destruct Hin as [-> | Hin]; [left | right]; auto.
  - intros x Hx. destruct (Hdom x Hx) as [? | [? _]]; lia.
  - intros x Hx Heq. destruct (Hdom x Hx) as [? | [_ ?]]; [lia | assumption].
Qed.

End MostCreative.

(** ** The monad of asynchronous computations *)

Lemma bind_Return {A B} (m : Async A) (k : A -> Async B) w b w' :
  bind m k w = (Return b, w') ->
  exists a w1, m w = (Return a, w1) /\ k a w1 = (Return b, w').
Proof.
  unfold bind. destruct (m w) as [[a | e] w1]; [eauto | discriminate].
Qed.

Lemma bind_eq {A B} (m : Async A) (k : A -> Async B) w a w1 :
  m w = (Return a, w1) -> bind m k w = k a w1.
Proof. unfold bind. now intros ->. Qed.

Lemma bind_Throw {A B} (m : Async A) (k : A -> Async B) w e w1 :
  m w = (Throw e, w1) -> bind m k w = (Throw e, w1).
Proof. unfold bind. now intros ->. Qed.

Lemma returns_ret {A} (a : A) : returns (ret a).
Proof. intros w. unfold ret. eauto. Qed.

Lemma returns_bind {A B} (m : Async A) (k : A -> Async B) :
  returns m -> (forall a, returns (k a)) -> returns (bind m k).
Proof.
  intros Hm Hk w. destruct (Hm w) as (a & w1 & Hw).
  rewrite (bind_eq _ _ _ _ _ Hw). apply Hk.
Qed.

Lemma returns_try_catch {A} (m : Async A) (handler : JsError -> Async A) :
  (forall e, returns (handler e)) -> returns (try_catch m handler).
Proof.
  intros Hh w. unfold try_catch.
  destruct (m w) as [[a | e] w1]; [eauto | apply Hh].
Qed.

Create HintDb returns.
#[local] Hint Resolve returns_ret returns_bind returns_try_catch : returns.

(** ** Bodies of the declared type *)

Section Bodies.
Context `{Runtime}.

Lemma entriesOf_words (items : list Item) (l : list DatamuseWord) :
  entriesOf items = Some l -> items = map Entry l.
Proof.
  revert l. induction items as [| [d |] items IH]; intros l; cbn.
  - now intros [= <-].
  - destruct (entriesOf items) as [l' |]; cbn; [| discriminate].
    intros [= <-]. cbn. now rewrite (IH l' eq_refl).
  - discriminate.
Qed.

Lemma asWords_words (body : Body) (l : list DatamuseWord) :
  asWords body = Some l <-> body = words l.
Proof.
  split.
  - destruct body as [items | | |]; cbn; try discriminate.
    intros He. unfold words. now rewrite (entriesOf_words _ _ He).
  - intros ->. unfold words. cbn.
    induction l as [| d l IH]; cbn; [reflexivity | now rewrite IH].
Qed.

Lemma findItem_entries (target : jsstring) (l : list DatamuseWord) :
  findItem target (map Entry l) = Return (find (matchesTarget target) l).
Proof.
  induction l as [| d l IH]; cbn; [reflexivity |].
  unfold matchesTarget at 1.
  destruct (strEq (toLowerCase (word d)) target); [reflexivity | exact IH].
Qed.

(** On an array of entries the lookups of the code are those of a list. *)
Lemma asWords_findWord (target : jsstring) (body : Body)
    (l : list DatamuseWord) :
  asWords body = Some l ->
  findWord target body = Return (find (matchesTarget target) l)
  /\ lengthIsZero body = Return (Z.of_nat (List.length l) =? 0).
Proof.
  intros Hl. apply asWords_words in Hl as ->. unfold words. cbn.
  split; [apply findItem_entries | now rewrite length_map].
Qed.

Lemma findItem_Some (target : jsstring) (items : list Item)
    (m : DatamuseWord) :
  findItem target items = Return (Some m) ->
  In (Entry m) items /\ toLowerCase (word m) = target.
Proof.
  induction items as [| [d |] items IH]; cbn; try discriminate.
  destruct (strEq (toLowerCase (word d)) target) eqn:Heq.
  - intros [= <-]. apply bool_decide_eq_true in Heq. auto.
  - intros Hrest. destruct (IH Hrest). auto.
Qed.

Lemma findWord_Some (target : jsstring) (body : Body) (m : DatamuseWord) :
  findWord target body = Return (Some m) ->
  exists items, body = Items items
                /\ findItem target items = Return (Some m).
Proof. destruct body as [items | | |]; cbn; try discriminate. eauto. Qed.

(** On a body of the declared type no lookup of the code raises. *)
Lemma typedBody_wordArray (body : Body) :
  typedBody body = true -> wordArray body = true.
Proof. unfold typedBody, wordArray. now destruct (asWords body). Qed.




End Bodies.

(** ** The cache and the requests *)

Section CachedFetch.
Context `{Runtime} (env : Env).

(** No failure of a request leaves [cachedFetch]. *)
Lemma cachedFetch_returns (url : jsstring) : returns (cachedFetch env url).
Proof.
  unfold cachedFetch.
  apply returns_bind; [intros w; unfold cache_get; eauto |].
  intros cached. apply returns_bind; [intros w; unfold Date_now; eauto |].
  intros now.
  destruct cached as [[data timestamp] |];
    [destruct (now - timestamp <? CACHE_TTL)%Z |]; auto with returns.
Qed.


(** The three ways through [cachedFetch]: a cached body is served, or the
    request fails and the empty array is returned, or the body of the
    response is returned and stored. *)
Lemma cachedFetch_cases (url : jsstring) (w : World) :
  (exists data timestamp,
     cache w !! url = Some (data, timestamp)
     /\ cachedFetch env url w = (Return data, observed w))
  \/ cachedFetch env url w = (Return (Items []), observed (observed w))
  \/ (exists r data,
        network env (S (tick w)) url = Some r
        /\ json r = Some data
        /\ cachedFetch env url w =
           (Return data,
            {| cache := <[url := (data, clock env (tick w))]> (cache w);
               tick := S (S (tick w)) |})).
Proof.
  unfold cachedFetch, bind, cache_get, Date_now, try_catch, fetch.
  cbn [tick observed].
  assert (Hrequest :
    forall o : Outcome Body * World,
      o = (let (o0, w1) :=
             let (o1, w2) :=
               (match network env (S (tick w)) url with
                | Some r => Return r
                | None => Throw NetworkError
                end, observed (observed w)) in
             match o1 with
             | Return a =>
                 let (o2, w3) :=
                   (if negb (ok a) then throw (ApiError (status a))
                    else ret ()) w2 in
                 match o2 with
                 | Return _ =>
                     let (o3, w4) := response_json a w3 in
                     match o3 with
                     | Return a1 =>
                         let (o4, w5) :=
                           cache_set url (a1, clock env (tick w)) w4 in
                         match o4 with
                         | Return _ => ret a1 w5
                         | Throw e => (Throw e, w5)
                         end
                     | Throw e => (Throw e, w4)
                     end
                 | Throw e => (Throw e, w3)
                 end
             | Throw e => (Throw e, w2)
             end in
           match o0 with
           | Return a => (Return a, w1)
           | Throw e => ret (Items []) w1
           end) ->
      o = (Return (Items []), observed (observed w))
      \/ (exists r data,
            network env (S (tick w)) url = Some r
            /\ json r = Some data
            /\ o = (Return data,
                    {| cache := <[url := (data, clock env (tick w))]>
                                  (cache w);
                       tick := S (S (tick w)) |}))).
  { intros o ->.
    destruct (network env (S (tick w)) url) as [[r_ok r_status r_json] |]
      eqn:Hnet; [| left; reflexivity].
    destruct r_ok; [| left; reflexivity].
    destruct r_json as [data |]; [| left; reflexivity].
    right. exists {| ok := true; status := r_status; json := Some data |},
             data. auto. }
  destruct (cache w !! url) as [[data timestamp] |] eqn:Hentry.
  - destruct (clock env (tick w) - timestamp <? CACHE_TTL).
    + left. exists data, timestamp. auto.
    + right. now apply Hrequest.
  - right. now apply Hrequest.
Qed.

Lemma encodeURIComponent_or_throw_returns (s : jsstring) :
  encodable s -> returns (encodeURIComponent_or_throw s).
Proof.
  unfold encodable, encodeURIComponent_or_throw.
  destruct (encodeURIComponent s); [auto with returns | congruence].
Qed.

Lemma getRelatedWords_returns (source : jsstring) (kind : RelationType)
    (max : N) :
  encodable (normalize source) -> returns (getRelatedWords env source kind max).
Proof.
  intros Henc. unfold getRelatedWords.
  apply returns_bind; [now apply encodeURIComponent_or_throw_returns |].
  intros encoded. apply cachedFetch_returns.
Qed.

(** *** Computations that keep the shape of the cached bodies *)

Lemma runs_ret {A} (P : Body -> bool) (Q : A -> Prop) (a : A) :
  Q a -> runs P Q (ret a).
Proof. intros Ha w Hw. exists a, w. auto. Qed.


Lemma runs_bind {A B} (P : Body -> bool) (Q : A -> Prop) (R : B -> Prop)
    (m : Async A) (k : A -> Async B) :
  runs P Q m -> (forall a, Q a -> runs P R (k a)) -> runs P R (bind m k).
Proof.
  intros Hm Hk w Hw. destruct (Hm w Hw) as (a & w1 & Hrun & Ha & Hw1).
  rewrite (bind_eq _ _ _ _ _ Hrun). now apply Hk.
Qed.

Lemma runs_encode (P : Body -> bool) (s : jsstring) :
  encodable s -> runs P (fun _ => True) (encodeURIComponent_or_throw s).
Proof.
  unfold encodable, encodeURIComponent_or_throw.
  destruct (encodeURIComponent s); [intros _; now apply runs_ret | congruence].
Qed.

Lemma runs_cachedFetch (P : Body -> bool) (url : jsstring) :
  sourceSends P env -> P (Items []) = true ->
  runs P (fun body => P body = true) (cachedFetch env url).
Proof.
  intros Hsource Hempty w Hw.
  destruct (cachedFetch_cases url w)
    as [(data & timestamp & Hhit & ->) | [-> | (r & data & Hnet & Hjson & ->)]].
  - exists data, (observed w). split; [reflexivity |].
    split; [exact (Hw _ _ _ Hhit) | exact Hw].
  - exists (Items []), (observed (observed w)). auto.
  - eexists _, _. split; [reflexivity |].
    pose proof (Hsource _ _ _ _ Hnet Hjson) as Hdata.
    split; [exact Hdata |].
    intros url' body timestamp. cbn [cache].
    destruct (decide (url = url')) as [<- | Hne].
    + rewrite lookup_insert_eq. now intros [= <- _].
    + rewrite lookup_insert_ne by exact Hne. apply Hw.
Qed.

Lemma runs_getRelatedWords (P : Body -> bool) source kind max :
  sourceSends P env -> P (Items []) = true ->
  encodable (normalize source) ->
  runs P (fun body => P body = true) (getRelatedWords env source kind max).
Proof.
  intros Hsource Hempty Henc. unfold getRelatedWords.
  eapply runs_bind; [now apply runs_encode |].
  intros encoded _. now apply runs_cachedFetch.
Qed.

End CachedFetch.

(** ** The relation resolver *)

Section Resolver.
Context `{Runtime} (env : Env).

(** [findWordInRelation], once the data source has answered with an array
    of entries. *)
Lemma findWordInRelation_answer source target kind w body related w' :
  getRelatedWords env source kind 100 w = (Return body, w') ->
  asWords body = Some related ->
  findWordInRelation env source target kind w =
    (Return (option_map
               (fun m => {| rm_word := m; rm_topScore := topScoreOf body |})
               (find (matchesTarget (normalize target)) related)), w').
Proof.
  intros Hq Hwords. unfold findWordInRelation.
  rewrite (bind_eq _ _ _ _ _ Hq).
  destruct (asWords_findWord (normalize target) body related Hwords)
    as [Hfind Hlen].
  unfold bind at 1, lift at 1. rewrite Hlen.
  destruct related as [| r related]; [reflexivity |].
  replace (Z.of_nat (List.length (r :: related)) =? 0)%Z with false
    by (symmetry; apply Z.eqb_neq; cbn [List.length]; lia).
  unfold bind, lift. fold (normalize target). rewrite Hfind.
  destruct (find (matchesTarget (normalize target)) (r :: related));
    reflexivity.
Qed.

(** [findWordInRelation], whatever the body. *)
Lemma findWordInRelation_inv source target kind w r w' :
  findWordInRelation env source target kind w = (Return r, w') ->
  exists body,
    getRelatedWords env source kind 100 w = (Return body, w')
    /\ ((lengthIsZero body = Return true /\ r = None)
        \/ (lengthIsZero body = Return false
            /\ exists found,
                 findWord (normalize target) body = Return found
                 /\ r = option_map
                          (fun m => {| rm_word := m;
                                       rm_topScore := topScoreOf body |})
                          found)).
Proof.
  unfold findWordInRelation. intros Hf.
  apply bind_Return in Hf as (body & w1 & Hq & Hf).
  apply bind_Return in Hf as (empty & w2 & Hlen & Hf).
  unfold lift in Hlen. injection Hlen as Hlen <-.
  destruct empty.
  - injection Hf as <- <-. eauto.
  - apply bind_Return in Hf as (found & w3 & Hfind & Hf).
    unfold lift in Hfind. injection Hfind as Hfind <-.
    fold (normalize target) in Hfind.
    exists body. split; [| right; split; [exact Hlen |]].
    + destruct found; injection Hf as <- <-; exact Hq.
    + exists found. split; [exact Hfind |].
      destruct found; injection Hf as <- <-; reflexivity.
Qed.

(** One turn of the loop of [findBestRelation]. *)
Lemma findBestRelation_from_step kind kinds source target w body related w' :
  getRelatedWords env source kind 100 w = (Return body, w') ->
  asWords body = Some related ->
  findBestRelation_from env (kind :: kinds) source target w =
    match find (matchesTarget (normalize target)) related with
    | Some m =>
        (Return (Some {| relationType := kind; match_ := m;
                         topScore := topScoreOf body |}), w')
    | None => findBestRelation_from env kinds source target w'
    end.
Proof.
  intros Hq Hwords. cbn [findBestRelation_from].
  rewrite (bind_eq _ _ _ _ _
             (findWordInRelation_answer _ target _ _ _ _ _ Hq Hwords)).
  destruct (find (matchesTarget (normalize target)) related); reflexivity.
Qed.

Lemma Answers_exist source :
  encodable (normalize source) ->
  sourceSends wordArray env ->
  forall kinds w,
    cacheHolds wordArray w -> exists lists, Answers env source kinds w lists.
Proof.
  intros Henc Hsource kinds.
  induction kinds as [| kind kinds IH]; intros w Hw.
  - exists []. constructor.
  - destruct (runs_getRelatedWords env wordArray source kind 100
                Hsource eq_refl Henc w Hw) as (body & w' & Hq & Hbody & Hw').
    unfold wordArray in Hbody.
    destruct (asWords body) as [related |] eqn:Hwords; [| discriminate].
    destruct (IH w' Hw') as (lists & Hlists).
    exists (related :: lists). econstructor; eassumption.
Qed.

(** What the loop returns, against the result lists of the kinds it was
    given. *)
Lemma findBestRelation_from_spec source target kinds w lists :
  Answers env source kinds w lists ->
  match fst (findBestRelation_from env kinds source target w) with
  | Return (Some b) =>
      exists (i : nat) related,
        kinds !! i = Some (relationType b)
        /\ lists !! i = Some related
        /\ find (matchesTarget (normalize target)) related = Some (match_ b)
        /\ topScore b = topScoreOf (words related)
        /\ (forall (j : nat) l, (j < i)%nat -> lists !! j = Some l ->
              find (matchesTarget (normalize target)) l = None)
  | Return None =>
      forall l, In l lists ->
        find (matchesTarget (normalize target)) l = None
  | Throw _ => False
  end.
Proof.
  induction 1 as [w | kind kinds w body related w' lists Hq Hwords Hrest IH].
  - cbn. intros l [].
  - rewrite (findBestRelation_from_step _ _ _ target _ _ _ _ Hq Hwords).
    apply asWords_words in Hwords as ->.
    destruct (find (matchesTarget (normalize target)) related) as [m |]
      eqn:Hfind.
    + cbn [fst]. exists 0%nat, related. cbn. repeat split; auto.
      intros j l Hj. lia.
    + destruct (fst (findBestRelation_from env kinds source target w'))
        as [[b |] | e]; [| | assumption].
      * destruct IH as (i & rel & Hk & Hl & Hm & Ht & Hbefore).
        exists (S i), rel. cbn. repeat split; auto.
        intros [| j] l Hj Hlj; cbn in Hlj.
        -- now injection Hlj as <-.
        -- apply (Hbefore j); [lia | assumption].
      * intros l [<- | Hin]; auto.
Qed.

(** Where an answer of the loop comes from: the queries up to the kind of
    the answer, run from the world the loop started in, end in the world
    the loop ends in, and the last body holds the match. *)
Lemma findBestRelation_from_Some source target kinds w b w' :
  findBestRelation_from env kinds source target w = (Return (Some b), w') ->
  exists (i : nat) bodies items,
    Queried env source (take (S i) kinds) w bodies w'
    /\ kinds !! i = Some (relationType b)
    /\ bodies !! i = Some (Items items)
    /\ findItem (normalize target) items = Return (Some (match_ b))
    /\ topScore b = topScoreOf (Items items).
Proof.
  revert w. induction kinds as [| kind kinds IH]; intros w Hf.
  - discriminate.
  - cbn [findBestRelation_from] in Hf.
    apply bind_Return in Hf as (r & w1 & Hr & Hk).
    apply findWordInRelation_inv in Hr
      as (body & Hq & [(_ & ->) | (_ & found & Hfind & ->)]).
    + destruct (IH _ Hk) as (i & bodies & items & Hqs & Hkind & Hb & Hm & Ht).
      exists (S i), (body :: bodies), items. cbn.
      split; [econstructor; eassumption | auto].
    + destruct found as [m |]; cbn [option_map] in Hk.
      * injection Hk as <- <-. cbn.
        destruct (findWord_Some _ _ _ Hfind) as (items & -> & Hitem).
        exists 0%nat, [Items items], items. cbn.
        split; [econstructor; [exact Hq | constructor] | auto].
      * destruct (IH _ Hk)
          as (i & bodies & items & Hqs & Hkind & Hb & Hm & Ht).
        exists (S i), (body :: bodies), items. cbn.
        split; [econstructor; eassumption | auto].
Qed.


End Resolver.

(** C4, as the code has it.  When the data source answers the queries of
    the seven kinds for the source word with arrays of entries, let [lists]
    be these result lists in priority order.  [findBestRelation] returns
    the first kind, in that order, whose list holds the target (entries
    lower-cased, target normalized), with the matching entry of that list
    and, as top score, the score of the first entry of that list, or 1 when
    that score is 0; it returns none when no list holds the target.  In
    particular a target in the synonym list gives the synonym kind,
    whatever the other lists hold.  The data source so answers whenever the
    source word can be URL-encoded and every body it sends, and every body
    cached, is an array of entries. *)
Theorem C4_findBestRelation `{Runtime} (env : Env)
    (source target : jsstring) (w : World) :
  (encodable (normalize source) ->
   sourceSends wordArray env ->
   cacheHolds wordArray w ->
   exists lists, Answers env source RELATION_PRIORITY w lists)
  /\ forall lists,
       Answers env source RELATION_PRIORITY w lists ->
       match fst (findBestRelation env source target w) with
       | Return (Some b) =>
           (exists (i : nat) related,
              RELATION_PRIORITY !! i = Some (relationType b)
              /\ lists !! i = Some related
              /\ find (matchesTarget (normalize target)) related
                 = Some (match_ b)
              /\ topScore b = topScoreOf (words related)
              /\ (forall (j : nat) l, (j < i)%nat -> lists !! j = Some l ->
                    find (matchesTarget (normalize target)) l = None))
           /\ (forall synonyms, lists !! 0%nat = Some synonyms ->
                 find (matchesTarget (normalize target)) synonyms <> None ->
                 relationType b = rel_syn)
       | Return None =>
           forall l, In l lists ->
             find (matchesTarget (normalize target)) l = None
       | Throw _ => False
       end.
Proof.
  split.
  { intros Henc Hsource Hw. now apply Answers_exist. }
  intros lists Hlists.
  pose proof (findBestRelation_from_spec env source target _ _ _ Hlists)
    as Hspec.
  unfold findBestRelation.
  destruct (fst (findBestRelation_from env RELATION_PRIORITY source target w))
    as [[b |] | e]; [| exact Hspec | exact Hspec].
  split; [exact Hspec |].
  destruct Hspec as (i & related & Hk & Hl & Hm & Ht & Hbefore).
  intros synonyms Hsyn Hfound.
  destruct i as [| i].
  - cbn in Hk. congruence.
  - exfalso. apply Hfound. apply (Hbefore 0%nat); [lia | exact Hsyn].
Qed.

(** C4 as stated fails three times.  When the first score of the matching
    list is 0 the top score returned is 1, which is the score of no entry
    of that list; for a source word with an unpaired surrogate the resolver
    raises URIError instead of reporting that no relation was found; and
    when a body is not an array of entries (here an object, and an array
    whose first element has no [word]) it raises TypeError. *)
Lemma C4_counterexample :
  (exists b w',
     findBestRelation (H := asciiRuntime) zeroTopEnv (js "dog") (js "cat")
       freshWorld = (Return (Some b), w')
     /\ relationType b = rel_syn
     /\ getRelatedWords (H := asciiRuntime) zeroTopEnv (js "dog") rel_syn 100
          freshWorld
        = (Return (words [entry "cat" 0]), w')
     /\ topScore b = 1%Q
     /\ ~ (topScore b == score (entry "cat" 0))%Q)
  /\ fst (findBestRelation (H := asciiRuntime) dogCatEnv loneSurrogate
            (js "cat") freshWorld) = Throw URIError
  /\ fst (findBestRelation (H := asciiRuntime) objectSynonymsEnv (js "dog")
            (js "cat") freshWorld) = Throw TypeError
  /\ fst (findBestRelation (H := asciiRuntime) noWordEnv (js "dog")
            (js "cat") freshWorld) = Throw TypeError.
Proof.
  split; [| split; [| split]]; try (vm_compute; reflexivity).
  eexists _, _. split; [vm_compute; reflexivity |].
  repeat split; try (vm_compute; reflexivity).
  vm_compute. discriminate.
Qed.

(** ** The link validator *)

Section LinkValidator.
Context `{Runtime} (env : Env).

Lemma strEq_true (a b : jsstring) : strEq a b = true <-> a = b.
Proof. unfold strEq. apply bool_decide_eq_true. Qed.

Lemma strEq_false (a b : jsstring) : strEq a b = false <-> a <> b.
Proof. unfold strEq. apply bool_decide_eq_false. Qed.

Lemma includes_true (l : list jsstring) (x : jsstring) :
  includes l x = true <-> In x l.
Proof.
  unfold includes. rewrite existsb_exists. split.
  - intros (y & Hin & Heq). apply strEq_true in Heq. now subst.
  - intros Hin. exists x. split; [assumption | now apply strEq_true].
Qed.

(** The four ways out of [validateLink] that are not an acceptance. *)
Lemma validateLink_Invalid previousWord inputWord usedWords w f w' :
  validateLink env previousWord inputWord usedWords w
    = (Return (Invalid f), w') ->
  vf_word f = inputWord
  /\ ((vf_reason f = same_word
       /\ normalize inputWord = normalize previousWord /\ w' = w)
      \/ (vf_reason f = already_used
          /\ In (normalize inputWord) (map toLowerCase usedWords) /\ w' = w)
      \/ (vf_reason f = not_a_word
          /\ verifyWord env (normalize inputWord) w = (Return None, w'))
      \/ (vf_reason f = no_connection
          /\ exists wordData w1,
               verifyWord env (normalize inputWord) w
                 = (Return (Some wordData), w1)
               /\ findBestRelation env (normalize previousWord)
                    (normalize inputWord) w1 = (Return None, w'))).
Proof.
  unfold validateLink. fold (normalize inputWord) (normalize previousWord).
  destruct (strEq (normalize inputWord) (normalize previousWord)) eqn:Hsame.
  { intros [= <- <-]. apply strEq_true in Hsame.
    cbn [vf_word vf_reason]. auto 10. }
  destruct (includes (map toLowerCase usedWords) (normalize inputWord))
    eqn:Hused.
  { intros [= <- <-]. apply includes_true in Hused.
    cbn [vf_word vf_reason]. auto 10. }
  intros Hrun.
  apply bind_Return in Hrun as ([wordData |] & w1 & Hverify & Hrun).
  - apply bind_Return in Hrun as ([relation |] & w2 & Hrel & Hrun).
    + apply bind_Return in Hrun as (frequency & w3 & _ & Hrun).
      discriminate.
    + injection Hrun as <- <-. cbn [vf_word vf_reason].
      split; [reflexivity |]. right. right. right. eauto.
  - injection Hrun as <- <-. cbn [vf_word vf_reason]. auto 10.
Qed.

(** The only way to an acceptance. *)
Lemma validateLink_Valid previousWord inputWord usedWords w v w' :
  validateLink env previousWord inputWord usedWords w
    = (Return (Valid v), w') ->
  exists wordData relation w1,
    verifyWord env (normalize inputWord) w = (Return (Some wordData), w1)
    /\ findBestRelation env (normalize previousWord) (normalize inputWord) w1
       = (Return (Some relation), w')
    /\ getWordFrequency wordData = Return (vs_frequency v)
    /\ vs_word v = word wordData
    /\ vs_relationType v = relationType relation
    /\ vs_heat v = (score (match_ relation) / topScore relation)%Q.
Proof.
  unfold validateLink. fold (normalize inputWord) (normalize previousWord).
  destruct (strEq (normalize inputWord) (normalize previousWord));
    [discriminate |].
  destruct (includes (map toLowerCase usedWords) (normalize inputWord));
    [discriminate |].
  intros Hrun.
  apply bind_Return in Hrun as ([wordData |] & w1 & Hverify & Hrun);
    [| discriminate].
  apply bind_Return in Hrun as ([relation |] & w2 & Hrel & Hrun);
    [| discriminate].
  apply bind_Return in Hrun as (frequency & w3 & Hfreq & Hrun).
  unfold lift in Hfreq. injection Hfreq as Hfreq <-.
  injection Hrun as <- <-.
  cbn [vs_word vs_relationType vs_heat vs_frequency]. eauto 10.
Qed.


(** *** On bodies of the declared type nothing raises *)






End LinkValidator.

Section Heat.
Local Open Scope Q_scope.

(** In an array whose scores are at least 1 and at most the top score, the
    top score at most 2^53, the quotient of a score by the top score lies
    in [2^-53, 1], and is 1 exactly for a score equal to the top score.
    The bounds 1 and 2^53 are for the division of the code, which rounds:
    they keep its quotient away from 0, where positive scores alone do
    not. *)
Lemma heat_bounds (items : list Item) (m : DatamuseWord) :
  In (Entry m) items ->
  (forall x, In (Entry x) items ->
     1 <= score x /\ score x <= topScoreOf (Items items)) ->
  topScoreOf (Items items) <= 9007199254740992 ->
  ((1 # 9007199254740992) <= score m / topScoreOf (Items items)
   /\ 0 < score m / topScoreOf (Items items)
   /\ score m / topScoreOf (Items items) <= 1)
  /\ (score m / topScoreOf (Items items) == 1
      <-> score m == topScoreOf (Items items)).
Proof.
  intros Hin Hranked. destruct (Hranked m Hin) as [Hpos Htop].
  generalize dependent (topScoreOf (Items items)). intros t _ Htop Hsafe.
  assert (Ht : 0 < t) by lra.
  assert (Hnz : ~ t == 0) by lra.
  repeat split.
  - apply Qle_shift_div_l; lra.
  - apply Qlt_shift_div_l; lra.
  - apply Qle_shift_div_r; lra.
  - intros Hone. rewrite <- (Qmult_div_r (score m) t Hnz), Hone. lra.
  - intros ->. unfold Qdiv. now apply Qmult_inv_r.
Qed.

End Heat.

(** C3, as the code has it.  A candidate whose lower-cased, trimmed form
    differs from that of the previous word and equals the lower-cased form
    of an element of the used-word list is rejected with [already_used],
    without any query: the candidate is lower-cased and trimmed, the used
    words are lower-cased only. *)
Theorem C3_already_used `{Runtime} (env : Env) (previousWord W : jsstring)
    (C : list jsstring) (w : World) :
  normalize W <> normalize previousWord ->
  In (normalize W) (map toLowerCase C) ->
  validateLink env previousWord W C w =
    (Return (Invalid {| vf_word := W;
                        vf_reason := already_used;
                        vf_message :=
                          js "This word is already in your chain" |}), w).
Proof.
  intros Hother Hused. unfold validateLink.
  fold (normalize W) (normalize previousWord).
  apply strEq_false in Hother. rewrite Hother.
  apply includes_true in Hused. rewrite Hused. reflexivity.
Qed.

(** C3 as stated fails when a used word differs from the candidate by
    surrounding white space: with " cat" in the chain, "cat" is not
    rejected as already used, it is accepted. *)
Lemma C3_counterexample :
  (exists c, In c [js " cat"]
             /\ normalize (H := asciiRuntime) (js "cat")
                = normalize (H := asciiRuntime) c)
  /\ normalize (H := asciiRuntime) (js "cat")
     <> normalize (H := asciiRuntime) (js "dog")
  /\ exists v w',
       validateLink (H := asciiRuntime) dogCatEnv (js "dog") (js "cat")
         [js " cat"] freshWorld = (Return (Valid v), w').
Proof.
  split; [| split].
  - exists (js " cat"). split; [left; reflexivity | vm_compute; reflexivity].
  - vm_compute. discriminate.
  - eexists _, _. vm_compute. reflexivity.
Qed.

Lemma C3_witness :
  validateLink (H := asciiRuntime) dogCatEnv (js "dog") (js " Cat ")
    [js "Dog"; js "CAT"] freshWorld =
    (Return (Invalid {| vf_word := js " Cat ";
                        vf_reason := already_used;
                        vf_message :=
                          js "This word is already in your chain" |}),
     freshWorld).
Proof.
  apply (C3_already_used (H := asciiRuntime) dogCatEnv (js "dog")
           (js " Cat ") [js "Dog"; js "CAT"] freshWorld).
  - vm_compute. discriminate.
  - vm_compute. right. left. reflexivity.
Defined.

(** C6.  [validateLink(W, W, usedWords)] is the [same_word] rejection of
    [W], for every used-word list, and so is [validateLink(P, W, usedWords)]
    for every [P] with the lower-cased, trimmed form of [W].  It is reached
    before any query: the world is left as it was, and the result is the
    same whatever the data source does. *)
Theorem C6_same_word `{Runtime} (env : Env) (W : jsstring)
    (usedWords : list jsstring) (w : World) :
  validateLink env W W usedWords w =
    (Return (Invalid {| vf_word := W;
                        vf_reason := same_word;
                        vf_message :=
                          js "Can't use the same word twice in a row" |}), w)
  /\ (forall env', validateLink env' W W usedWords w
                   = validateLink env W W usedWords w)
  /\ (forall env' P,
        normalize P = normalize W ->
        validateLink env' P W usedWords w = validateLink env W W usedWords w).
Proof.
  assert (Hany : forall e P, normalize P = normalize W ->
    validateLink e P W usedWords w =
      (Return (Invalid {| vf_word := W;
                          vf_reason := same_word;
                          vf_message :=
                            js "Can't use the same word twice in a row" |}),
       w)).
  { intros e P Hsame. unfold validateLink.
    fold (normalize W) (normalize P).
    rewrite (proj2 (strEq_true _ _) (eq_sym Hsame)). reflexivity. }
  split; [now apply Hany |]. split.
  - intros env'. now rewrite !Hany.
  - intros env' P Hsame. now rewrite !Hany.
Qed.

Lemma C6_witness :
  validateLink (H := asciiRuntime) offlineEnv (js " Dog") (js "dog")
    [js "cat"] freshWorld
  = validateLink (H := asciiRuntime) dogCatEnv (js "dog") (js "dog")
      [js "cat"] freshWorld.
Proof.
  apply (proj2 (proj2 (C6_same_word (H := asciiRuntime) dogCatEnv (js "dog")
                         [js "cat"] freshWorld))).
  vm_compute. reflexivity.
Defined.



(** C9, as the code has it.  An accepted link comes from a verified
    candidate and from the queries of the resolver, run in priority order
    up to the kind of the link from the world the verification left: the
    last of their bodies is an array that holds the match, and the heat is
    the score of the match divided by the top score of that array (the
    score of its first entry, or 1 when that is 0).  When the scores of
    that array are at least 1 and none exceeds the top score, itself at
    most 2^53, the heat lies in (0, 1], and it is 1 exactly when the score
    of the match equals the top score. *)
Theorem C9_heat_range `{Runtime} (env : Env)
    (previousWord inputWord : jsstring) (usedWords : list jsstring)
    (w w' : World) (v : ValidationSuccess) :
  validateLink env previousWord inputWord usedWords w
    = (Return (Valid v), w') ->
  exists wordData w1 (i : nat) bodies items m,
    verifyWord env (normalize inputWord) w = (Return (Some wordData), w1)
    /\ Queried env (normalize previousWord)
         (take (S i) RELATION_PRIORITY) w1 bodies w'
    /\ RELATION_PRIORITY !! i = Some (vs_relationType v)
    /\ bodies !! i = Some (Items items)
    /\ findItem (normalize (normalize inputWord)) items = Return (Some m)
    /\ In (Entry m) items
    /\ vs_heat v = (score m / topScoreOf (Items items))%Q
    /\ ((forall x, In (Entry x) items ->
           (1 <= score x)%Q /\ (score x <= topScoreOf (Items items))%Q) ->
        (topScoreOf (Items items) <= 9007199254740992)%Q ->
        ((1 # 9007199254740992 <= vs_heat v)%Q
         /\ (0 < vs_heat v)%Q /\ (vs_heat v <= 1)%Q)
        /\ ((vs_heat v == 1)%Q
            <-> (score m == topScoreOf (Items items))%Q)).
Proof.
  intros Hvalid.
  apply validateLink_Valid in Hvalid
    as (wordData & relation & w1 & Hverify & Hrel & _ & _ & Hkind & Hheat).
  apply findBestRelation_from_Some in Hrel
    as (i & bodies & items & Hqueried & Hi & Hbody & Hfind & Htop).
  exists wordData, w1, i, bodies, items, (match_ relation).
  rewrite Hkind, Hheat, Htop.
  pose proof (findItem_Some _ _ _ Hfind) as [Hin _].
  repeat (split; [assumption || reflexivity |]).
  intros Hranked Hsafe. now apply heat_bounds.
Qed.

(** C9 as stated fails whenever the data source does not rank a list best
    first with positive scores: a match ranked below a weaker word has a
    heat above 1, and a match of score 0 has heat 0.  And a heat of 1 does
    not single out the strongest word: the second of two equally strong
    triggers has it too. *)
Lemma C9_counterexample :
  (exists v w',
     validateLink (H := asciiRuntime) unrankedEnv (js "dog") (js "cat")
       [js "dog"] freshWorld = (Return (Valid v), w')
     /\ (vs_heat v == 9)%Q /\ ~ (vs_heat v <= 1)%Q)
  /\ (exists v w',
        validateLink (H := asciiRuntime) zeroTopEnv (js "dog") (js "cat")
          [js "dog"] freshWorld = (Return (Valid v), w')
        /\ (vs_heat v == 0)%Q /\ ~ (0 < vs_heat v)%Q)
  /\ (exists v w',
        validateLink (H := asciiRuntime) tieEnv (js "dog") (js "cat")
          [js "dog"] freshWorld = (Return (Valid v), w')
        /\ (vs_heat v == 1)%Q
        /\ fst (getRelatedWords (H := asciiRuntime) tieEnv (js "dog")
                  (vs_relationType v) 100 freshWorld)
           = Return (words [entry "bark" 100; entry "cat" 100])).
Proof.
  split; [| split]; eexists _, _;
    (split; [vm_compute; reflexivity |]);
    split; try (vm_compute; reflexivity).
  - vm_compute. intros Hle. now apply Hle.
  - vm_compute. discriminate.
Qed.

(** C10.  [validateFinalLink(currentWord, endWord)] is
    [validateLink(currentWord, endWord, [])], and it never rejects with
    [already_used]. *)
Theorem C10_validateFinalLink `{Runtime} (env : Env)
    (currentWord endWord : jsstring) (w : World) :
  validateFinalLink env currentWord endWord w
    = validateLink env currentWord endWord [] w
  /\ forall f w',
       validateFinalLink env currentWord endWord w = (Return (Invalid f), w') ->
       vf_reason f <> already_used.
Proof.
  split; [reflexivity |].
  intros f w' Hrun. unfold validateFinalLink in Hrun.
  apply validateLink_Invalid in Hrun
    as (_ & [(Hr & _) | [(_ & [] & _) | [(Hr & _) | (Hr & _)]]]);
    rewrite Hr; discriminate.
Qed.

(** ** Instances on concrete inputs *)

Lemma C1_witness :
  starsFromHeat (70 # 100) = 1
  /\ starsFromHeat (6599999 # 10000000) = 2
  /\ starsFromHeat (3999999 # 10000000) = 3.
Proof.
  split; [| split].
  - apply (proj1 (C1_star_thresholds (70 # 100))). reflexivity.
  - apply (proj1 (proj2 (C1_star_thresholds (6599999 # 10000000)))).
    split; discriminate.
  - apply (proj1 (proj2 (proj2 (C1_star_thresholds (3999999 # 10000000))))).
    reflexivity.
Defined.

Lemma C5_witness :
  calculateCreativityStars (10 # 100) (5 # 1000) = 2
  /\ calculateCreativityStars (10 # 100) (2 # 100) = starsFromHeat (10 # 100)
  /\ calculateCreativityStars (50 # 100) (5 # 1000) = starsFromHeat (50 # 100).
Proof.
  split; [| split].
  - apply (proj1 (C5_rarity_clamp (10 # 100) (5 # 1000))); reflexivity.
  - apply (proj1 (proj2 (proj2 (C5_rarity_clamp (10 # 100) (2 # 100))))).
    discriminate.
  - apply (proj1 (proj2 (C5_rarity_clamp (50 # 100) (5 # 1000)))).
    discriminate.
Defined.

Lemma C2_witness : (finalScore (calculateScore 2 0 6) == 0)%Q.
Proof.
  apply (proj1 (proj2 (proj2 (proj2 (proj2 (proj2
           (C2_calculateScore 2 0 6))))))).
  reflexivity.
Defined.

Example getMostCreativeLink_tie :
  getMostCreativeLink
    [link "bark" 1 (90 # 100); link "moon" 3 (30 # 100);
     link "tide" 3 (12 # 100)]
  = Some (link "tide" 3 (12 # 100)).
Proof. reflexivity. Qed.

Lemma C7_witness :
  exists best,
    getMostCreativeLink
      [link "bark" 1 (90 # 100); link "moon" 3 (30 # 100);
       link "tide" 3 (12 # 100)] = Some best
    /\ In best [link "bark" 1 (90 # 100); link "moon" 3 (30 # 100);
                link "tide" 3 (12 # 100)]
    /\ (forall l,
          In l [link "bark" 1 (90 # 100); link "moon" 3 (30 # 100);
                link "tide" 3 (12 # 100)] ->
          link_creativityStars l <= link_creativityStars best)
    /\ (forall l,
          In l [link "bark" 1 (90 # 100); link "moon" 3 (30 # 100);
                link "tide" 3 (12 # 100)] ->
          link_creativityStars l = link_creativityStars best ->
          (link_heat best <= link_heat l)%Q).
Proof.
  apply (proj2 (C7_getMostCreativeLink
                  [link "bark" 1 (90 # 100); link "moon" 3 (30 # 100);
                   link "tide" 3 (12 # 100)])).
  discriminate.
Defined.

(** The example data sources send bodies of the declared type, and a
    fresh world has nothing cached. *)
Lemma tableEnv_sends (table : list (jsstring * list DatamuseWord)) :
  forallb (fun e => typedBody (words (snd e))) table = true ->
  sourceSends typedBody (tableEnv table).
Proof.
  intros Hall n url r body Hnet Hjson. cbn [network tableEnv] in Hnet.
  rewrite forallb_forall in Hall.
  destruct (find (fun e => strEq (fst e) url) table) as [e |] eqn:Hfind.
  - injection Hnet as <-. injection Hjson as <-.
    apply find_some in Hfind as [Hin _]. exact (Hall e Hin).
  - injection Hnet as <-. injection Hjson as <-. reflexivity.
Qed.

Lemma sourceSends_wordArray (env : Env) :
  sourceSends typedBody env -> sourceSends wordArray env.
Proof.
  intros Hsource n url r body Hnet Hjson.
  apply typedBody_wordArray. exact (Hsource n url r body Hnet Hjson).
Qed.

Lemma cacheHolds_fresh (P : Body -> bool) : cacheHolds P freshWorld.
Proof.
  intros url body timestamp. cbn [cache freshWorld].
  rewrite lookup_empty. discriminate.
Qed.

Lemma C4_witness :
  exists lists,
    Answers (H := asciiRuntime) synTrgEnv (js "dog") RELATION_PRIORITY
      freshWorld lists
    /\ match fst (findBestRelation (H := asciiRuntime) synTrgEnv (js "dog")
                    (js " Cat") freshWorld) with
       | Return (Some b) =>
           (exists (i : nat) related,
              RELATION_PRIORITY !! i = Some (relationType b)
              /\ lists !! i = Some related
              /\ find (matchesTarget (H := asciiRuntime)
                         (normalize (H := asciiRuntime) (js " Cat"))) related
                 = Some (match_ b)
              /\ topScore b = topScoreOf (words related)
              /\ (forall (j : nat) l, (j < i)%nat -> lists !! j = Some l ->
                    find (matchesTarget (H := asciiRuntime)
                            (normalize (H := asciiRuntime) (js " Cat"))) l
                    = None))
           /\ (forall synonyms, lists !! 0%nat = Some synonyms ->
                 find (matchesTarget (H := asciiRuntime)
                         (normalize (H := asciiRuntime) (js " Cat"))) synonyms
                 <> None ->
                 relationType b = rel_syn)
       | Return None =>
           forall l, In l lists ->
             find (matchesTarget (H := asciiRuntime)
                     (normalize (H := asciiRuntime) (js " Cat"))) l = None
       | Throw _ => False
       end.
Proof.
  destruct (proj1 (C4_findBestRelation (H := asciiRuntime) synTrgEnv
                     (js "dog") (js " Cat") freshWorld))
    as (lists & Hlists).
  - vm_compute. discriminate.
  - apply sourceSends_wordArray, tableEnv_sends. vm_compute. reflexivity.
  - apply cacheHolds_fresh.
  - exists lists. split; [exact Hlists |].
    exact (proj2 (C4_findBestRelation (H := asciiRuntime) synTrgEnv
                    (js "dog") (js " Cat") freshWorld) lists Hlists).
Defined.


Lemma C9_witness :
  exists v w',
    validateLink (H := asciiRuntime) dogCatEnv (js "dog") (js "Cat ")
      [js "dog"] freshWorld = (Return (Valid v), w')
    /\ exists wordData w1 (i : nat) bodies items m,
         verifyWord (H := asciiRuntime) dogCatEnv
           (normalize (H := asciiRuntime) (js "Cat ")) freshWorld
           = (Return (Some wordData), w1)
         /\ Queried (H := asciiRuntime) dogCatEnv
              (normalize (H := asciiRuntime) (js "dog"))
              (take (S i) RELATION_PRIORITY) w1 bodies w'
         /\ RELATION_PRIORITY !! i = Some (vs_relationType v)
         /\ bodies !! i = Some (Items items)
         /\ findItem (H := asciiRuntime)
              (normalize (H := asciiRuntime)
                 (normalize (H := asciiRuntime) (js "Cat "))) items
            = Return (Some m)
         /\ In (Entry m) items
         /\ vs_heat v = (score m / topScoreOf (Items items))%Q
         /\ ((forall x, In (Entry x) items ->
                (1 <= score x)%Q
                /\ (score x <= topScoreOf (Items items))%Q) ->
             (topScoreOf (Items items) <= 9007199254740992)%Q ->
             ((1 # 9007199254740992 <= vs_heat v)%Q
              /\ (0 < vs_heat v)%Q /\ (vs_heat v <= 1)%Q)
             /\ ((vs_heat v == 1)%Q
                 <-> (score m == topScoreOf (Items items))%Q)).
Proof.
  eexists _, _. split; [vm_compute; reflexivity |].
  eapply (C9_heat_range (H := asciiRuntime) dogCatEnv (js "dog") (js "Cat ")
            [js "dog"] freshWorld).
  vm_compute. reflexivity.
Defined.

Example validateLink_dog_cat :
  fst (validateLink (H := asciiRuntime) dogCatEnv (js "dog") (js "Cat ")
         [js "dog"] freshWorld)
  = Return (Valid {| vs_word := js "cat";
                     vs_relationType := rel_trg;
                     vs_relationLabel := js "Association";
                     vs_heat := 900 / 2000;
                     vs_creativityStars := 2;
                     vs_isHubWord := false;
                     vs_frequency := 235 # 10 |}).
Proof. vm_compute. reflexivity. Qed.

Example validateFinalLink_used_word :
  exists v w',
    validateFinalLink (H := asciiRuntime) dogCatEnv (js "dog") (js "cat")
      freshWorld = (Return (Valid v), w')
    /\ validateLink (H := asciiRuntime) dogCatEnv (js "dog") (js "cat")
         [js "cat"; js "dog"] freshWorld
       = (Return (Invalid {| vf_word := js "cat";
                             vf_reason := already_used;
                             vf_message :=
                               js "This word is already in your chain" |}),
          freshWorld).
Proof. eexists _, _. split; vm_compute; reflexivity. Qed.

Example findBestRelation_prefers_synonym :
  fst (findBestRelation (H := asciiRuntime) synTrgEnv (js "dog") (js "cat")
         freshWorld)
  = Return (Some {| relationType := rel_syn;
                    match_ := entry "cat" 100;
                    topScore := 500 |}).
Proof. vm_compute. reflexivity. Qed.

Lemma C10_witness :
  exists f w',
    validateFinalLink (H := asciiRuntime) offlineEnv (js "dog") (js "cat")
      freshWorld = (Return (Invalid f), w')
    /\ vf_reason f <> already_used.
Proof.
  eexists _, _. split; [vm_compute; reflexivity |].
  eapply (proj2 (C10_validateFinalLink (H := asciiRuntime) offlineEnv
                   (js "dog") (js "cat") freshWorld)).
  vm_compute. reflexivity.
Defined.

(** * Further properties of the code *)

(** ** The cache *)

Section Cache.
Context `{Runtime} (env : Env).

Lemma cachedFetch_fresh (url : jsstring) (w : World)
    (data : Body) (timestamp : Z) :
  cache w !! url = Some (data, timestamp) ->
  clock env (tick w) - timestamp < CACHE_TTL ->
  cachedFetch env url w = (Return data, observed w).
Proof.
  intros Hhit Hfresh. unfold cachedFetch, bind, cache_get, Date_now.
  rewrite Hhit.
  destruct (Z.ltb_spec (clock env (tick w) - timestamp) CACHE_TTL);
    [reflexivity | lia].
Qed.

Lemma fresh_or_stale (url : jsstring) (w : World) :
  (exists data timestamp,
     cache w !! url = Some (data, timestamp)
     /\ clock env (tick w) - timestamp < CACHE_TTL)
  \/ stale env w url.
Proof.
  unfold stale. destruct (cache w !! url) as [[data timestamp] |]; [| auto].
  destruct (Z.lt_ge_cases (clock env (tick w) - timestamp) CACHE_TTL);
    [left; eauto | right; lia].
Qed.

Lemma cachedFetch_request (url : jsstring) (w : World) :
  stale env w url ->
  cachedFetch env url w =
    try_catch
      (await response := fetch env url in
       await _ := (if negb (ok response)
                   then throw (ApiError (status response))
                   else ret tt) in
       await data := response_json response in
       await _ := cache_set url (data, clock env (tick w)) in
       ret data)
      (fun error => ret (Items [])) (observed w).
Proof.
  unfold stale. intros Hstale.
  unfold cachedFetch, bind at 1 2, cache_get, Date_now.
  destruct (cache w !! url) as [[data timestamp] |]; [| reflexivity].
  destruct (Z.ltb_spec (clock env (tick w) - timestamp) CACHE_TTL);
    [lia | reflexivity].
Qed.

Lemma cachedFetch_stale_tick (url : jsstring) (w : World) :
  stale env w url -> tick (snd (cachedFetch env url w)) = S (S (tick w)).
Proof.
  intros Hstale. rewrite (cachedFetch_request _ _ Hstale).
  unfold try_catch, bind, fetch. cbn [tick observed].
  destruct (network env (S (tick w)) url) as [[r_ok r_status r_json] |];
    [destruct r_ok; [destruct r_json |] |]; reflexivity.
Qed.

(** X1.  An entry younger than [CACHE_TTL] is served as it is: no request
    is made (one observation, the clock), and the cache is unchanged.
    Conversely a call that makes a single observation has served such an
    entry: a request is skipped for no other reason. *)
Theorem X1_cachedFetch_hit (url : jsstring) (w : World)
    (data : Body) (timestamp : Z) :
  (cache w !! url = Some (data, timestamp) ->
   clock env (tick w) - timestamp < CACHE_TTL ->
   cachedFetch env url w = (Return data, observed w))
  /\ (tick (snd (cachedFetch env url w)) = S (tick w) ->
      exists cached stored,
        cache w !! url = Some (cached, stored)
        /\ clock env (tick w) - stored < CACHE_TTL
        /\ cachedFetch env url w = (Return cached, observed w)).
Proof.
  split; [apply cachedFetch_fresh |].
  intros Hone.
  destruct (fresh_or_stale url w)
    as [(cached & stored & Hhit & Hfresh) | Hstale].
  - exists cached, stored. split; [exact Hhit |]. split; [exact Hfresh |].
    exact (cachedFetch_fresh _ _ _ _ Hhit Hfresh).
  - rewrite (cachedFetch_stale_tick _ _ Hstale) in Hone. lia.
Qed.

Lemma cachedFetch_success (url : jsstring) (w : World) (r : Response)
    (data : Body) :
  stale env w url ->
  network env (S (tick w)) url = Some r ->
  ok r = true ->
  json r = Some data ->
  cachedFetch env url w =
    (Return data,
     {| cache := <[url := (data, clock env (tick w))]> (cache w);
        tick := S (S (tick w)) |}).
Proof.
  intros Hstale Hnet Hok Hjson. rewrite (cachedFetch_request _ _ Hstale).
  unfold try_catch, bind, fetch. cbn [tick observed].
  rewrite Hnet, Hok. cbn. unfold response_json. rewrite Hjson. reflexivity.
Qed.

Lemma cachedFetch_stale_answer (url : jsstring) (w : World) :
  stale env w url ->
  fst (cachedFetch env url w)
    = Return (networkAnswer (network env (S (tick w)) url)).
Proof.
  intros Hstale. rewrite (cachedFetch_request _ _ Hstale).
  unfold try_catch, bind, fetch, networkAnswer. cbn [tick observed].
  destruct (network env (S (tick w)) url) as [[r_ok r_status r_json] |];
    [destruct r_ok; [destruct r_json |] |]; reflexivity.
Qed.

(** X2.  When nothing servable is cached and the request succeeds, the
    parsed body is returned and stored under the URL with the time read at
    the start of the call. *)
Theorem X2_cachedFetch_stores (url : jsstring) (w : World) (r : Response)
    (data : Body) :
  stale env w url ->
  network env (S (tick w)) url = Some r ->
  ok r = true ->
  json r = Some data ->
  cachedFetch env url w =
    (Return data,
     {| cache := <[url := (data, clock env (tick w))]> (cache w);
        tick := S (S (tick w)) |}).
Proof. apply cachedFetch_success. Qed.

(** X3.  A stale or missing entry is never served: the call returns what
    the network answers, the empty list when the request fails, and a
    failed request leaves the cache as it was. *)
Theorem X3_cachedFetch_stale (url : jsstring) (w : World) :
  stale env w url ->
  fst (cachedFetch env url w)
    = Return (networkAnswer (network env (S (tick w)) url))
  /\ (transportFailure (network env (S (tick w)) url) ->
      cachedFetch env url w = (Return (Items []), observed (observed w))).
Proof.
  intros Hstale. split; [now apply cachedFetch_stale_answer |].
  rewrite (cachedFetch_request _ _ Hstale).
  unfold try_catch, bind, fetch. cbn [tick observed].
  destruct (network env (S (tick w)) url) as [[r_ok r_status r_json] |];
    [| reflexivity].
  cbn. intros [-> | ->]; [reflexivity | destruct r_ok; reflexivity].
Qed.

Lemma cachedFetch_frame (url : jsstring) (w : World) :
  (forall url', url' <> url ->
     cache (snd (cachedFetch env url w)) !! url' = cache w !! url')
  /\ (is_Some (cache w !! url) ->
      is_Some (cache (snd (cachedFetch env url w)) !! url))
  /\ (tick w < tick (snd (cachedFetch env url w)) <= tick w + 2)%nat.
Proof.
  destruct (fresh_or_stale url w)
    as [(data & timestamp & Hhit & Hfresh) | Hstale].
  - rewrite (cachedFetch_fresh _ _ _ _ Hhit Hfresh). cbn.
    repeat split; auto; lia.
  - rewrite (cachedFetch_request _ _ Hstale).
    unfold try_catch, bind, fetch. cbn [tick observed].
    destruct (network env (S (tick w)) url) as [[r_ok r_status r_json] |];
      [destruct r_ok; [destruct r_json |] |]; cbn;
      (split; [| split; [| lia]]); auto.
    + intros url' Hne. now rewrite lookup_insert_ne.
    + intros _. rewrite lookup_insert_eq. eauto.
Qed.

(** X4.  A call touches the cache at its own URL only, never removes an
    entry, and makes one or two observations of the outside. *)
Theorem X4_cachedFetch_frame (url : jsstring) (w : World) :
  let w' := snd (cachedFetch env url w) in
  (forall url', url' <> url -> cache w' !! url' = cache w !! url')
  /\ (is_Some (cache w !! url) -> is_Some (cache w' !! url))
  /\ (tick w < tick w' <= tick w + 2)%nat.
Proof. cbv zeta. apply cachedFetch_frame. Qed.

(** X5.  Fetching twice: when the first call stores the answer of the
    network and the second reads the clock less than [CACHE_TTL] later, the
    second call returns the same data from the cache, with no further
    request (three observations in all). *)
Theorem X5_cachedFetch_twice (url : jsstring) (w : World) (r : Response)
    (data : Body) :
  stale env w url ->
  network env (S (tick w)) url = Some r ->
  ok r = true ->
  json r = Some data ->
  clock env (S (S (tick w))) - clock env (tick w) < CACHE_TTL ->
  (await first := cachedFetch env url in cachedFetch env url) w =
    (Return data,
     {| cache := <[url := (data, clock env (tick w))]> (cache w);
        tick := S (S (S (tick w))) |}).
Proof.
  intros Hstale Hnet Hok Hjson Hsoon.
  rewrite (bind_eq _ _ _ _ _ (cachedFetch_success _ _ _ _ Hstale Hnet Hok Hjson)).
  erewrite cachedFetch_fresh;
    [reflexivity | cbn [cache]; apply lookup_insert_eq | exact Hsoon].
Qed.

(** X6.  After [clearCache] the cache statistics are empty, and the next
    [cachedFetch] of any URL returns what the network answers at that
    moment, whatever had been cached. *)
Theorem X6_clearCache (url : jsstring) (w : World) :
  fst ((await cleared := clearCache in getCacheStats) w)
    = Return {| stats_size := 0; stats_keys := [] |}
  /\ fst ((await cleared := clearCache in cachedFetch env url) w)
     = Return (networkAnswer (network env (S (tick w)) url)).
Proof.
  split; [reflexivity |].
  unfold bind, clearCache.
  rewrite cachedFetch_stale_answer; [reflexivity |].
  unfold stale. cbn [cache]. now rewrite lookup_empty.
Qed.

End Cache.

(** ** The cost of a validation *)

Section Cost.
Context `{Runtime} (env : Env).

Lemma within_ret {A} (a : A) : within 0 (ret a).
Proof. intros w. cbn. split; [lia | auto]. Qed.

Lemma within_throw {A} (e : JsError) : within 0 (throw (A := A) e).
Proof. intros w. cbn. split; [lia | auto]. Qed.

Lemma within_lift {A} (o : Outcome A) : within 0 (lift o).
Proof. intros w. cbn. split; [lia | auto]. Qed.

Lemma within_weaken {A} (n n' : nat) (m : Async A) :
  (n <= n')%nat -> within n m -> within n' m.
Proof.
  intros Hle Hm w. destruct (Hm w) as [Ht Hc]. split; [lia | exact Hc].
Qed.

Lemma within_bind {A B} (n k : nat) (m : Async A) (f : A -> Async B) :
  within n m -> (forall a, within k (f a)) -> within (n + k) (bind m f).
Proof.
  intros Hm Hf w. specialize (Hm w). unfold bind.
  destruct (m w) as [[a | e] w1]; cbn [snd] in *.
  - destruct Hm as [Ht Hc]. destruct (Hf a w1) as [Ht' Hc'].
    split; [lia | auto].
  - destruct Hm as [Ht Hc]. split; [lia | auto].
Qed.

Lemma within_cachedFetch (url : jsstring) : within 2 (cachedFetch env url).
Proof.
  intros w. destruct (cachedFetch_frame env url w) as (Hother & Hsame & Ht).
  split; [lia |]. intros url' Hsome.
  destruct (decide (url' = url)) as [-> | Hne]; [auto |].
  now rewrite Hother.
Qed.

Lemma within_encode (s : jsstring) : within 0 (encodeURIComponent_or_throw s).
Proof.
  unfold encodeURIComponent_or_throw.
  destruct (encodeURIComponent s); [apply within_ret | apply within_throw].
Qed.

Lemma within_verifyWord (word0 : jsstring) : within 2 (verifyWord env word0).
Proof.
  unfold verifyWord.
  apply (within_bind 0 2); [apply within_encode |]. intros encoded.
  apply (within_bind 2 0); [apply within_cachedFetch |]. intros results.
  apply (within_bind 0 0); [apply within_lift |]. intros found.
  apply within_ret.
Qed.

Lemma within_getRelatedWords source kind max :
  within 2 (getRelatedWords env source kind max).
Proof.
  unfold getRelatedWords.
  apply (within_bind 0 2); [apply within_encode |]. intros encoded.
  apply within_cachedFetch.
Qed.

Lemma within_findWordInRelation source target kind :
  within 2 (findWordInRelation env source target kind).
Proof.
  unfold findWordInRelation.
  apply (within_bind 2 0); [apply within_getRelatedWords |]. intros related.
  apply (within_bind 0 0); [apply within_lift |].
  intros [|]; [apply within_ret |].
  apply (within_bind 0 0); [apply within_lift |].
  intros [m |]; apply within_ret.
Qed.

Lemma within_findBestRelation_from kinds source target :
  within (2 * List.length kinds)
    (findBestRelation_from env kinds source target).
Proof.
  induction kinds as [| kind kinds IH]; cbn [findBestRelation_from].
  - apply within_ret.
  - apply (within_weaken (2 + 2 * List.length kinds));
      [cbn [List.length]; lia |].
    apply within_bind; [apply within_findWordInRelation |].
    intros [r |]; [| exact IH].
    eapply within_weaken; [| apply within_ret]. lia.
Qed.

(** X7.  One validation makes at most sixteen observations of the outside
    (eight requests, each with one reading of the clock) and drops no entry
    of the cache; the resolver alone makes at most fourteen. *)
Theorem X7_validation_cost (previousWord inputWord : jsstring)
    (usedWords : list jsstring) :
  within 16 (validateLink env previousWord inputWord usedWords)
  /\ within 14 (findBestRelation env previousWord inputWord).
Proof.
  split; [| apply (within_findBestRelation_from RELATION_PRIORITY)].
  unfold validateLink.
  destruct (strEq _ _);
    [eapply within_weaken; [| apply within_ret]; lia |].
  destruct (includes _ _);
    [eapply within_weaken; [| apply within_ret]; lia |].
  apply (within_bind 2 14); [apply within_verifyWord |].
  intros [wordData |];
    [| eapply within_weaken; [| apply within_ret]; lia].
  apply (within_bind 14 0);
    [apply (within_findBestRelation_from RELATION_PRIORITY) |].
  intros [relation |]; [| apply within_ret].
  apply (within_bind 0 0); [apply within_lift |]. intros frequency.
  apply within_ret.
Qed.

End Cost.

(** ** Words, frequencies and accepted links *)

Section Words.
Context `{Runtime} (env : Env).

(** A lookup raises TypeError only, and only on a body that is not an array
    of entries. *)
Lemma findItem_Throw (target : jsstring) (items : list Item) (e : JsError) :
  findItem target items = Throw e -> e = TypeError /\ entriesOf items = None.
Proof.
  induction items as [| [d |] items IH]; cbn [findItem entriesOf].
  - discriminate.
  - destruct (strEq (toLowerCase (word d)) target); [discriminate |].
    intros Hrest. destruct (IH Hrest) as [-> ->]. auto.
  - intros [= <-]. auto.
Qed.

Lemma findWord_Throw (target : jsstring) (body : Body) (e : JsError) :
  findWord target body = Throw e -> e = TypeError /\ wordArray body = false.
Proof.
  unfold wordArray. destruct body as [items | | |]; cbn [findWord asWords].
  - intros Hthrow. destruct (findItem_Throw _ _ _ Hthrow) as [-> ->]. auto.
  - intros [= <-]. auto.
  - intros [= <-]. auto.
  - intros [= <-]. auto.
Qed.

Lemma verifyWord_inv (word0 : jsstring) (w : World) :
  match verifyWord env word0 w with
  | (Return (Some d), _) => toLowerCase (word d) = normalize word0
  | (Return None, _) => True
  | (Throw e, w') =>
      (e = URIError /\ ~ encodable (normalize word0) /\ w' = w)
      \/ (e = TypeError
          /\ exists url body,
               cachedFetch env url w = (Return body, w')
               /\ wordArray body = false
               /\ findWord (normalize word0) body = Throw TypeError)
  end.
Proof.
  unfold verifyWord, encodeURIComponent_or_throw, encodable.
  fold (normalize word0).
  destruct (encodeURIComponent (normalize word0)) as [encoded |].
  - unfold bind at 1. unfold ret at 1.
    destruct (cachedFetch_returns env
                (API_BASE ++ js "/words?sp=" ++ encoded
                 ++ js "&qe=sp&md=f&max=1") w) as (results & w1 & Hfetch).
    rewrite (bind_eq _ _ _ _ _ Hfetch). unfold bind, lift, ret.
    destruct (findWord (normalize word0) results) as [[d |] | e] eqn:Hfind.
    + destruct (findWord_Some _ _ _ Hfind) as (items & _ & Hitem).
      now destruct (findItem_Some _ _ _ Hitem).
    + exact I.
    + destruct (findWord_Throw _ _ _ Hfind) as [-> Hshape].
      right. split; [reflexivity |]. eauto.
  - cbn. left. auto.
Qed.

(** X8.  A word that [verifyWord] returns is the query itself, case apart:
    its lower-cased form is the lower-cased, trimmed query.  [verifyWord]
    raises two errors only: the URIError of a query that cannot be encoded,
    raised before anything is observed, and the TypeError of a lookup in a
    body, fetched or cached, that is not an array of entries. *)
Theorem X8_verifyWord_exact (word0 : jsstring) (w : World) :
  match verifyWord env word0 w with
  | (Return (Some d), _) => toLowerCase (word d) = normalize word0
  | (Return None, _) => True
  | (Throw e, w') =>
      (e = URIError /\ ~ encodable (normalize word0) /\ w' = w)
      \/ (e = TypeError
          /\ exists url body,
               cachedFetch env url w = (Return body, w')
               /\ wordArray body = false
               /\ findWord (normalize word0) body = Throw TypeError)
  end.
Proof. apply verifyWord_inv. Qed.

Lemma findFrequencyTag_stringTags (ts : list jsstring) :
  findFrequencyTag (map Some ts) = Return (find (startsWith (js "f:")) ts).
Proof.
  induction ts as [| t ts IH]; cbn [map findFrequencyTag find];
    [reflexivity |].
  destruct (startsWith (js "f:") t); [reflexivity | exact IH].
Qed.

Lemma findFrequencyTag_Some (ts : list (option jsstring)) (t : jsstring) :
  findFrequencyTag ts = Return (Some t) ->
  In (Some t) ts /\ startsWith (js "f:") t = true.
Proof.
  induction ts as [| [t0 |] ts IH]; cbn [findFrequencyTag]; try discriminate.
  destruct (startsWith (js "f:") t0) eqn:Hf.
  - intros [= <-]. split; [left; reflexivity | exact Hf].
  - intros Hrest. destruct (IH Hrest). split; [right |]; assumption.
Qed.

Lemma findFrequencyTag_Throw (ts : list (option jsstring)) (e : JsError) :
  findFrequencyTag ts = Throw e ->
  e = TypeError /\ typedTags (TagArray ts) = false.
Proof.
  induction ts as [| [t0 |] ts IH];
    cbn [findFrequencyTag typedTags forallb andb].
  - discriminate.
  - destruct (startsWith (js "f:") t0); [discriminate | exact IH].
  - intros [= <-]. auto.
Qed.

(** X9.  [getWordFrequency] is 0 for a word without tags, for a word none
    of whose tags starts with "f:", and for a word whose first such tag
    does not parse; any other result is the number parsed from what follows
    "f:" in the first such tag.  It raises nothing but TypeError, and only
    on tags that are neither absent nor an array of strings. *)
Theorem X9_getWordFrequency (d : DatamuseWord) :
  (tags d = NoTags -> getWordFrequency d = Return 0%Q)
  /\ (forall ts, tags d = stringTags ts ->
        (forall t, In t ts -> startsWith (js "f:") t = false) ->
        getWordFrequency d = Return 0%Q)
  /\ (forall ts t, tags d = stringTags ts ->
        find (startsWith (js "f:")) ts = Some t ->
        getWordFrequency d = Return (default 0%Q (parseFloat (slice 2 t))))
  /\ (forall q, getWordFrequency d = Return q -> q <> 0%Q ->
      exists ts t, tags d = TagArray ts /\ In (Some t) ts
                   /\ startsWith (js "f:") t = true
                   /\ parseFloat (slice 2 t) = Some q)
  /\ (forall e, getWordFrequency d = Throw e ->
        e = TypeError /\ typedTags (tags d) = false).
Proof.
  unfold getWordFrequency. split; [| split; [| split; [| split]]].
  - now intros ->.
  - intros ts -> Hnone. unfold stringTags.
    rewrite findFrequencyTag_stringTags.
    destruct (find (startsWith (js "f:")) ts) as [t |] eqn:Hfind;
      [| reflexivity].
    apply find_some in Hfind as [Hin Hf]. rewrite (Hnone t Hin) in Hf.
    discriminate.
  - intros ts t -> Hfind. unfold stringTags.
    rewrite findFrequencyTag_stringTags, Hfind.
    now destruct (parseFloat (slice 2 t)).
  - intros q. destruct (tags d) as [| ts |]; [congruence | | discriminate].
    destruct (findFrequencyTag ts) as [[t |] | e] eqn:Hfind;
      [| congruence | discriminate].
    destruct (parseFloat (slice 2 t)) as [freq |] eqn:Hparse; [| congruence].
    intros [= <-] _. apply findFrequencyTag_Some in Hfind as [Hin Hf].
    eauto 10.
  - intros e. destruct (tags d) as [| ts |]; [discriminate | |].
    + destruct (findFrequencyTag ts) as [[t |] | e'] eqn:Hfind.
      * destruct (parseFloat (slice 2 t)); discriminate.
      * discriminate.
      * intros [= <-]. exact (findFrequencyTag_Throw _ _ Hfind).
    + intros [= <-]. auto.
Qed.

Lemma topScoreOf_nonzero (related : Body) : ~ (topScoreOf related == 0)%Q.
Proof.
  unfold topScoreOf.
  destruct related as [[| [r |] items] | | |]; try discriminate.
  destruct (Qeq_bool (score r) 0) eqn:Hzero; [discriminate |].
  intros Heq. apply Qeq_bool_iff in Heq. congruence.
Qed.

(** X10.  The top score of an answer of the resolver is never 0: a first
    score of 0 is replaced by 1, so the heat of an accepted link is never
    a quotient by 0. *)
Theorem X10_topScore_nonzero (source target : jsstring) (w w' : World)
    (b : BestRelation) :
  findBestRelation env source target w = (Return (Some b), w') ->
  ~ (topScore b == 0)%Q.
Proof.
  intros Hfound.
  apply findBestRelation_from_Some in Hfound
    as (i & bodies & items & _ & _ & _ & _ & Htop).
  rewrite Htop. apply topScoreOf_nonzero.
Qed.

(** Everything an acceptance carries. *)
Lemma validateLink_Valid_fields previousWord inputWord usedWords w v w' :
  validateLink env previousWord inputWord usedWords w
    = (Return (Valid v), w') ->
  normalize inputWord <> normalize previousWord
  /\ ~ In (normalize inputWord) (map toLowerCase usedWords)
  /\ exists wordData w1,
       verifyWord env (normalize inputWord) w = (Return (Some wordData), w1)
       /\ vs_word v = word wordData
       /\ getWordFrequency wordData = Return (vs_frequency v)
       /\ vs_relationLabel v = RELATION_LABELS (vs_relationType v)
       /\ vs_creativityStars v
          = calculateCreativityStars (vs_heat v) (vs_frequency v)
       /\ vs_isHubWord v = isHubWord (normalize inputWord).
Proof.
  unfold validateLink. fold (normalize inputWord) (normalize previousWord).
  destruct (strEq (normalize inputWord) (normalize previousWord)) eqn:Hsame;
    [discriminate |].
  destruct (includes (map toLowerCase usedWords) (normalize inputWord))
    eqn:Hused; [discriminate |].
  intros Hrun.
  apply bind_Return in Hrun as ([wordData |] & w1 & Hverify & Hrun);
    [| discriminate].
  apply bind_Return in Hrun as ([relation |] & w2 & Hrel & Hrun);
    [| discriminate].
  apply bind_Return in Hrun as (frequency & w3 & Hfreq & Hrun).
  unfold lift in Hfreq. injection Hfreq as Hfreq <-.
  injection Hrun as <- <-.
  split; [now apply strEq_false |].
  split; [rewrite <- includes_true; congruence |].
  exists wordData, w1.
  cbn [vs_word vs_frequency vs_relationLabel vs_relationType
       vs_creativityStars vs_heat vs_isHubWord].
  auto 10.
Qed.

End Words.

Section Scorer.
Local Open Scope Q_scope.

Lemma calculateCreativityStars_range (heat frequency : Q) :
  (1 <= calculateCreativityStars heat frequency <= 3)%Z.
Proof.
  unfold calculateCreativityStars.
  destruct (starsFromHeat_range heat) as [-> | [-> | ->]];
    destruct (Qlt_bool frequency (1 # 100)); cbn; lia.
Qed.

Lemma starsFromHeat_antitone (heat heat' : Q) :
  heat <= heat' -> (starsFromHeat heat' <= starsFromHeat heat)%Z.
Proof.
  intros Hle. unfold starsFromHeat. number_cases; solve [lia | lra].
Qed.

(** X11.  The rating is always 1, 2 or 3; it is at most 2 for a word of
    frequency below 0.01; and for a given frequency a higher heat never
    earns more stars. *)
Theorem X11_stars_range (heat frequency : Q) :
  (1 <= calculateCreativityStars heat frequency <= 3)%Z
  /\ (frequency < 1 # 100 ->
      (calculateCreativityStars heat frequency <= 2)%Z)
  /\ (forall heat', heat <= heat' ->
        (calculateCreativityStars heat' frequency
         <= calculateCreativityStars heat frequency)%Z).
Proof.
  split; [apply calculateCreativityStars_range |]. split.
  - intros Hrare. unfold calculateCreativityStars.
    destruct (Qlt_bool_reflect frequency (1 # 100)); [| lra].
    destruct (starsFromHeat_range heat) as [-> | [-> | ->]]; cbn; lia.
  - intros heat' Hle. pose proof (starsFromHeat_antitone _ _ Hle) as Hanti.
    unfold calculateCreativityStars.
    destruct (starsFromHeat_range heat) as [E | [E | E]];
      destruct (starsFromHeat_range heat') as [E' | [E' | E']];
      rewrite E, E' in *; destruct (Qlt_bool frequency (1 # 100)); cbn; lia.
Qed.

Lemma Math_round_of_integer (x : Q) (z : Z) :
  x == inject_Z z -> Math_round x == x.
Proof.
  intros Hx. unfold Math_round.
  assert (Hfloor : Qfloor (x + (1 # 2)) = z).
  { rewrite Hx.
    pose proof (Qfloor_le (inject_Z z + (1 # 2))) as Hlo.
    pose proof (Qlt_floor (inject_Z z + (1 # 2))) as Hhi.
    assert (inject_Z (Qfloor (inject_Z z + (1 # 2))) < inject_Z (z + 1))
      by (rewrite inject_Z_plus; change (inject_Z 1) with 1; lra).
    assert (inject_Z z < inject_Z (Qfloor (inject_Z z + (1 # 2)) + 1))
      by lra.
    rewrite <- Zlt_Qlt in *. lia. }
  rewrite Hfloor. now symmetry.
Qed.

Lemma Math_round_monotone (x y : Q) :
  x <= y -> Math_round x <= Math_round y.
Proof.
  intros Hle. unfold Math_round. rewrite <- Zle_Qle.
  apply Qfloor_resp_le. lra.
Qed.

Lemma Math_max_0_monotone (x y : Q) :
  x <= y -> Math_max 0 x <= Math_max 0 y.
Proof. intros Hle. unfold Math_max. number_cases; lra. Qed.

Lemma finalScore_monotone (c p t c' p' t' : Q) :
  c + p - t * (5 # 10) <= c' + p' - t' * (5 # 10) ->
  finalScore (calculateScore c p t) <= finalScore (calculateScore c' p' t').
Proof.
  intros Hle. unfold calculateScore. cbn [finalScore].
  apply Math_max_0_monotone in Hle.
  assert (Hten : Math_max 0 (c + p - t * (5 # 10)) * 10
                 <= Math_max 0 (c' + p' - t' * (5 # 10)) * 10) by lra.
  apply Math_round_monotone in Hten.
  unfold Qdiv. change (/ 10) with (1 # 10). lra.
Qed.

Lemma finalScore_on_counts (chainLength penaltySteps totalStars : Z) :
  finalScore (calculateScore (inject_Z chainLength) (inject_Z penaltySteps)
                (inject_Z totalStars))
  == Math_max 0 (inject_Z chainLength + inject_Z penaltySteps
                 - inject_Z totalStars * (1 # 2)).
Proof.
  unfold calculateScore. cbn [finalScore].
  set (d := inject_Z chainLength + inject_Z penaltySteps
            - inject_Z totalStars * (5 # 10)).
  assert (Hd : d * 10
               == inject_Z (10 * chainLength + 10 * penaltySteps
                            - 5 * totalStars)).
  { subst d. unfold Z.sub.
    rewrite !inject_Z_plus, inject_Z_opp, !inject_Z_mult.
    change (inject_Z 10) with 10. change (inject_Z 5) with 5. lra. }
  assert (Hsame : Math_max 0 d
                  == Math_max 0 (inject_Z chainLength + inject_Z penaltySteps
                                 - inject_Z totalStars * (1 # 2))).
  { subst d. unfold Math_max. number_cases; lra. }
  rewrite <- Hsame.
  assert (Hround : Math_round (Math_max 0 d * 10) == Math_max 0 d * 10).
  { unfold Math_max. destruct (Qle_bool 0 d).
    - eapply Math_round_of_integer. exact Hd.
    - apply (Math_round_of_integer _ 0). reflexivity. }
  rewrite Hround. unfold Qdiv. change (/ 10) with (1 # 10). lra.
Qed.

(** X12.  On whole numbers of steps, penalties and stars the rounding
    changes nothing: the final score is exactly
    max(0, steps + penalties - stars / 2). *)
Theorem X12_score_exact_on_counts (chainLength penaltySteps totalStars : Z) :
  finalScore (calculateScore (inject_Z chainLength) (inject_Z penaltySteps)
                (inject_Z totalStars))
  == Math_max 0 (inject_Z chainLength + inject_Z penaltySteps
                 - inject_Z totalStars * (1 # 2)).
Proof. apply finalScore_on_counts. Qed.

(** X13.  Golf scoring: the final score never decreases when steps or
    penalties are added and never increases when stars are added. *)
Theorem X13_score_monotone (chainLength penaltySteps totalStars extra : Q) :
  0 <= extra ->
  finalScore (calculateScore chainLength penaltySteps totalStars)
    <= finalScore (calculateScore (chainLength + extra) penaltySteps
                     totalStars)
  /\ finalScore (calculateScore chainLength penaltySteps totalStars)
       <= finalScore (calculateScore chainLength (penaltySteps + extra)
                        totalStars)
  /\ finalScore (calculateScore chainLength penaltySteps
                   (totalStars + extra))
       <= finalScore (calculateScore chainLength penaltySteps totalStars).
Proof.
  intros Hextra. repeat split; apply finalScore_monotone; lra.
Qed.

Lemma X13_witness :
  finalScore (calculateScore 4 1 3) <= finalScore (calculateScore (4 + 2) 1 3)
  /\ finalScore (calculateScore 4 1 3)
       <= finalScore (calculateScore 4 (1 + 2) 3)
  /\ finalScore (calculateScore 4 1 (3 + 2))
       <= finalScore (calculateScore 4 1 3).
Proof. apply (X13_score_monotone 4 1 3 2). discriminate. Defined.

End Scorer.

(** ** What the validator hands back *)

Section Results.
Context `{Runtime} (env : Env).

(** X14.  An accepted link carries the word as the data source spells it,
    equal to the normalized candidate case apart; the label of its relation
    kind; a rating of 1, 2 or 3 that is the scorer's for its heat and
    frequency, at most 2 for a frequency below 0.01; and the hub flag of
    the normalized candidate. *)
Theorem X14_accepted_link (previousWord inputWord : jsstring)
    (usedWords : list jsstring) (w w' : World) (v : ValidationSuccess) :
  validateLink env previousWord inputWord usedWords w
    = (Return (Valid v), w') ->
  toLowerCase (vs_word v) = normalize (normalize inputWord)
  /\ vs_relationLabel v = RELATION_LABELS (vs_relationType v)
  /\ vs_creativityStars v
     = calculateCreativityStars (vs_heat v) (vs_frequency v)
  /\ 1 <= vs_creativityStars v <= 3
  /\ ((vs_frequency v < 1 # 100)%Q -> vs_creativityStars v <= 2)
  /\ vs_isHubWord v = isHubWord (normalize inputWord).
Proof.
  intros Hvalid.
  apply validateLink_Valid_fields in Hvalid
    as (_ & _ & wordData & w1 & Hverify & Hword & _ & Hlabel & Hstars & Hhub).
  pose proof (verifyWord_inv env (normalize inputWord) w) as Hexact.
  rewrite Hverify in Hexact.
  rewrite Hword, Hstars. repeat split; auto.
  - apply calculateCreativityStars_range.
  - apply calculateCreativityStars_range.
  - intros Hrare. unfold calculateCreativityStars.
    destruct (Qlt_bool_reflect (vs_frequency v) (1 # 100)); [| lra].
    destruct (starsFromHeat_range (vs_heat v)) as [-> | [-> | ->]]; cbn; lia.
Qed.


(** Every rejection, with its message and what it cost. *)
Lemma validateLink_Invalid_message previousWord inputWord usedWords w f w' :
  validateLink env previousWord inputWord usedWords w
    = (Return (Invalid f), w') ->
  match vf_reason f with
  | same_word =>
      vf_message f = js "Can't use the same word twice in a row" /\ w' = w
  | already_used =>
      vf_message f = js "This word is already in your chain" /\ w' = w
  | not_a_word =>
      vf_message f = js "Not a valid word"
      /\ verifyWord env (normalize inputWord) w = (Return None, w')
  | no_connection =>
      vf_message f = js "No connection found to " ++ quote
                     ++ normalize previousWord ++ quote
  end.
Proof.
  unfold validateLink. fold (normalize inputWord) (normalize previousWord).
  destruct (strEq (normalize inputWord) (normalize previousWord));
    [intros [= <- <-]; cbn [vf_reason vf_message]; auto |].
  destruct (includes (map toLowerCase usedWords) (normalize inputWord));
    [intros [= <- <-]; cbn [vf_reason vf_message]; auto |].
  intros Hrun.
  apply bind_Return in Hrun as ([wordData |] & w1 & Hverify & Hrun).
  - apply bind_Return in Hrun as ([relation |] & w2 & Hrel & Hrun).
    + apply bind_Return in Hrun as (frequency & w3 & _ & Hrun).
      discriminate.
    + injection Hrun as <- <-. reflexivity.
  - injection Hrun as <- <-. cbn [vf_reason vf_message]. auto.
Qed.

(** X15.  A rejection echoes the candidate as it was typed and carries the
    message of its reason; the [no_connection] message quotes the
    normalized previous word.  The two local rejections observe nothing of
    the outside, and a [not_a_word] rejection makes at most two
    observations: no relation is queried for a word that is not verified. *)
Theorem X15_rejections (previousWord inputWord : jsstring)
    (usedWords : list jsstring) (w w' : World) (f : ValidationFailure) :
  validateLink env previousWord inputWord usedWords w
    = (Return (Invalid f), w') ->
  vf_word f = inputWord
  /\ match vf_reason f with
     | same_word =>
         vf_message f = js "Can't use the same word twice in a row"
         /\ w' = w
     | already_used =>
         vf_message f = js "This word is already in your chain" /\ w' = w
     | not_a_word =>
         vf_message f = js "Not a valid word"
         /\ (tick w' <= tick w + 2)%nat
     | no_connection =>
         vf_message f = js "No connection found to " ++ quote
                        ++ normalize previousWord ++ quote
     end.
Proof.
  intros Hrun.
  split; [apply (validateLink_Invalid env _ _ _ _ _ _ Hrun) |].
  apply validateLink_Invalid_message in Hrun.
  destruct (vf_reason f); auto.
  destruct Hrun as [Hmsg Hverify]. split; [exact Hmsg |].
  pose proof (within_verifyWord env (normalize inputWord) w) as [Ht _].
  rewrite Hverify in Ht. cbn [snd] in Ht. lia.
Qed.


End Results.

Lemma X14_witness :
  exists v,
    toLowerCase (Runtime := asciiRuntime) (vs_word v)
    = normalize (H := asciiRuntime) (normalize (H := asciiRuntime) (js " Cat"))
    /\ vs_relationLabel v = RELATION_LABELS (vs_relationType v)
    /\ vs_creativityStars v
       = calculateCreativityStars (vs_heat v) (vs_frequency v)
    /\ 1 <= vs_creativityStars v <= 3
    /\ ((vs_frequency v < 1 # 100)%Q -> vs_creativityStars v <= 2)
    /\ vs_isHubWord v
       = isHubWord (H := asciiRuntime)
           (normalize (H := asciiRuntime) (js " Cat")).
Proof.
  eexists.
  eapply (X14_accepted_link (H := asciiRuntime) dogCatEnv (js "dog")
            (js " Cat") [js "dog"] freshWorld).
  vm_compute. reflexivity.
Defined.

Lemma X15_witness :
  exists f w',
    validateLink (H := asciiRuntime) dogCatEnv (js "cat") (js "Moon ")
      [js "cat"] freshWorld = (Return (Invalid f), w')
    /\ vf_word f = js "Moon "
    /\ match vf_reason f with
       | same_word =>
           vf_message f = js "Can't use the same word twice in a row"
           /\ w' = freshWorld
       | already_used =>
           vf_message f = js "This word is already in your chain"
           /\ w' = freshWorld
       | not_a_word =>
           vf_message f = js "Not a valid word"
           /\ (tick w' <= tick freshWorld + 2)%nat
       | no_connection =>
           vf_message f = js "No connection found to " ++ quote
                          ++ normalize (H := asciiRuntime) (js "cat")
                          ++ quote
       end.
Proof.
  assert (Hrun : exists f w',
            validateLink (H := asciiRuntime) dogCatEnv (js "cat")
              (js "Moon ") [js "cat"] freshWorld = (Return (Invalid f), w'))
    by (eexists _, _; vm_compute; reflexivity).
  destruct Hrun as (f & w' & Hrun). exists f, w'.
  split; [exact Hrun |].
  exact (X15_rejections (H := asciiRuntime) dogCatEnv (js "cat")
           (js "Moon ") [js "cat"] freshWorld w' f Hrun).
Defined.

(** ** Puzzle pairs *)

Section Pairs.

#[local] Instance WordPair_eq_dec : EqDecision WordPair.
Proof. solve_decision. Defined.

Lemma WORD_PAIRS_length : Z.of_nat (List.length WORD_PAIRS) = 30.
Proof. reflexivity. Qed.

Lemma PRACTICE_PAIRS_length : Z.of_nat (List.length PRACTICE_PAIRS) = 20.
Proof. reflexivity. Qed.

Lemma WORD_PAIRS_NoDup : NoDup WORD_PAIRS.
Proof. apply (bool_decide_unpack _). vm_compute. exact I. Qed.

Lemma elementAt_in_range {A} (table : list A) (index : Z) :
  0 <= index < Z.of_nat (List.length table) ->
  exists x, elementAt table index = Some x
            /\ table !! Z.to_nat index = Some x /\ In x table.
Proof.
  intros Hrange. unfold elementAt.
  destruct (Z.ltb_spec index 0); [lia |].
  destruct (lookup_lt_is_Some_2 table (Z.to_nat index)) as [x Hx]; [lia |].
  exists x. repeat split; auto.
  apply list_elem_of_In. eapply list_elem_of_lookup_2. exact Hx.
Qed.

Lemma elementAt_out_of_range {A} (table : list A) (index : Z) :
  index < 0 \/ Z.of_nat (List.length table) <= index ->
  elementAt table index = None.
Proof.
  intros Hout. unfold elementAt.
  destruct (Z.ltb_spec index 0); [reflexivity |].
  apply lookup_ge_None_2. lia.
Qed.

Lemma getDailyWordPair_nonneg (seed : Z) :
  0 <= seed ->
  exists p, getDailyWordPair seed = Some p
            /\ WORD_PAIRS !! Z.to_nat (seed mod 30) = Some p
            /\ In p WORD_PAIRS.
Proof.
  intros Hseed. unfold getDailyWordPair. cbv zeta.
  rewrite WORD_PAIRS_length, Z.rem_mod_nonneg by lia.
  apply elementAt_in_range. rewrite WORD_PAIRS_length.
  apply Z.mod_pos_bound. lia.
Qed.

(** X16.  Every seed that is not negative selects a pair of the table, the
    same as the seed 30 higher; a negative seed that is not a multiple of
    30 selects none, the remainder being negative. *)
Theorem X16_getDailyWordPair (seed : Z) :
  (0 <= seed ->
   exists p, getDailyWordPair seed = Some p
             /\ In p WORD_PAIRS
             /\ getDailyWordPair (seed + 30) = Some p)
  /\ (seed < 0 -> Z.rem seed 30 <> 0 -> getDailyWordPair seed = None).
Proof.
  split.
  - intros Hseed.
    destruct (getDailyWordPair_nonneg seed Hseed) as (p & Hp & Hlook & Hin).
    exists p. repeat split; auto.
    destruct (getDailyWordPair_nonneg (seed + 30)) as (p' & Hp' & Hlook' & _);
      [lia |].
    replace ((seed + 30) mod 30) with (seed mod 30) in Hlook'
      by (rewrite <- (Z.mul_1_l 30) at 2; now rewrite Z.mod_add).
    congruence.
  - intros Hneg Hrem. unfold getDailyWordPair. cbv zeta.
    rewrite WORD_PAIRS_length. apply elementAt_out_of_range. left.
    pose proof (Z.rem_bound_pos_neg seed 30) as Hbound. lia.
Qed.

(** X17.  Two seeds that are not negative select the same pair exactly
    when they leave the same remainder by 30: the table has no repeated
    pair. *)
Theorem X17_pairs_repeat_every_30 (seed1 seed2 : Z) :
  0 <= seed1 -> 0 <= seed2 ->
  (getDailyWordPair seed1 = getDailyWordPair seed2
   <-> seed1 mod 30 = seed2 mod 30).
Proof.
  intros H1 H2.
  destruct (getDailyWordPair_nonneg seed1 H1) as (p1 & Hp1 & Hl1 & _).
  destruct (getDailyWordPair_nonneg seed2 H2) as (p2 & Hp2 & Hl2 & _).
  rewrite Hp1, Hp2. split.
  - intros [= <-].
    pose proof (NoDup_lookup _ _ _ _ WORD_PAIRS_NoDup Hl1 Hl2) as Heq.
    pose proof (Z.mod_pos_bound seed1 30). pose proof (Z.mod_pos_bound seed2 30).
    lia.
  - intros Heq. rewrite Heq in Hl1. congruence.
Qed.

Lemma X17_witness :
  getDailyWordPair 20240131 = getDailyWordPair 20240201
  <-> 20240131 mod 30 = 20240201 mod 30.
Proof. apply (X17_pairs_repeat_every_30 20240131 20240201); discriminate. Defined.

(** X18.  [getRandomWordPair] returns a pair of the practice table for
    every value of [Math.random()] in [0, 1), and nothing for a value
    outside that range. *)
Theorem X18_getRandomWordPair (random : Q) :
  ((0 <= random)%Q /\ (random < 1)%Q ->
   exists p, getRandomWordPair random = Some p /\ In p PRACTICE_PAIRS)
  /\ ((random < 0)%Q \/ (1 <= random)%Q -> getRandomWordPair random = None).
Proof.
  unfold getRandomWordPair. cbv zeta. rewrite PRACTICE_PAIRS_length.
  change (inject_Z 20) with 20%Q.
  pose proof (Qfloor_le (random * 20)) as Hlo.
  pose proof (Qlt_floor (random * 20)) as Hhi.
  rewrite inject_Z_plus in Hhi. change (inject_Z 1) with 1%Q in Hhi.
  split.
  - intros [H0 H1].
    destruct (elementAt_in_range PRACTICE_PAIRS (Qfloor (random * 20)))
      as (p & Hp & _ & Hin); [| eauto].
    rewrite PRACTICE_PAIRS_length. split.
    + apply Z.lt_succ_r. rewrite Zlt_Qlt.
      unfold Z.succ. rewrite inject_Z_plus. change (inject_Z 1) with 1%Q.
      change (inject_Z 0) with 0%Q. lra.
    + rewrite Zlt_Qlt. change (inject_Z 20) with 20%Q. lra.
  - intros Hout. apply elementAt_out_of_range.
    rewrite PRACTICE_PAIRS_length.
    destruct Hout as [Hneg | Hbig].
    + left. rewrite Zlt_Qlt. change (inject_Z 0) with 0%Q. lra.
    + right. apply Z.lt_succ_r. rewrite Zlt_Qlt.
      unfold Z.succ. rewrite inject_Z_plus. change (inject_Z 1) with 1%Q.
      change (inject_Z 20) with 20%Q. lra.
Qed.

(** X19.  On dates with a month from 0 to 11 and a day from 1 to 31 the
    daily seed determines the date: different days never share a seed. *)
Theorem X19_getDailySeed_injective (d1 d2 : DateParts) :
  validDate d1 -> validDate d2 ->
  getDailySeed d1 = getDailySeed d2 -> d1 = d2.
Proof.
  unfold validDate, getDailySeed.
  destruct d1 as [y1 m1 a1], d2 as [y2 m2 a2]. cbn.
  intros [Hm1 Ha1] [Hm2 Ha2] Hseed.
  assert (y1 = y2) by lia. assert (m1 = m2) by lia. assert (a1 = a2) by lia.
  congruence.
Qed.

Lemma X19_witness :
  {| fullYear := 2024; month := 0; dayOfMonth := 31 |}
  = {| fullYear := 2024; month := 0; dayOfMonth := 31 |}.
Proof.
  apply (X19_getDailySeed_injective
           {| fullYear := 2024; month := 0; dayOfMonth := 31 |}
           {| fullYear := 2024; month := 0; dayOfMonth := 31 |});
    [unfold validDate; cbn; lia | unfold validDate; cbn; lia | reflexivity].
Defined.

End Pairs.

(** ** The store *)

Section StoreProperties.
Context `{Runtime}.

Lemma getTotalStars_fold (chain : list ChainLink) (acc : Z) :
  fold_left (fun sum l => sum + link_creativityStars l) chain acc
  = acc + fold_left (fun sum l => sum + link_creativityStars l) chain 0.
Proof.
  revert acc. induction chain as [| l chain IH]; intros acc; cbn [fold_left].
  - lia.
  - rewrite (IH (acc + link_creativityStars l)),
      (IH (0 + link_creativityStars l)). lia.
Qed.

(** X20.  [addLink] appends one link: the chain is one longer, the current
    word becomes the accepted word, the total of stars grows by the stars
    of the link, the penalty grows by one exactly for a hub word, the last
    failure is forgotten, and the game is won exactly when the accepted
    word is the end word, case apart. *)
Theorem X20_addLink (validation : ValidationSuccess) (now : Z)
    (s : GameState) :
  let s' := addLink validation now s in
  getChainLength s' = getChainLength s + 1
  /\ getCurrentWord s' = vs_word validation
  /\ getTotalStars s' = getTotalStars s + vs_creativityStars validation
  /\ gs_penaltySteps s'
     = gs_penaltySteps s + (if vs_isHubWord validation then 1 else 0)
  /\ gs_lastFailedAttempt s' = None
  /\ (gs_status s' = won
      <-> toLowerCase (vs_word validation) = toLowerCase (gs_endWord s))
  /\ (gs_status s' = won \/ gs_status s' = playing)
  /\ gs_startWord s' = gs_startWord s /\ gs_endWord s' = gs_endWord s.
Proof.
  cbv zeta. unfold getChainLength, getCurrentWord, getTotalStars, addLink.
  cbn [gs_chain gs_penaltySteps gs_lastFailedAttempt gs_status gs_startWord
       gs_endWord].
  repeat split.
  - rewrite length_app. cbn [List.length]. lia.
  - rewrite last_snoc. reflexivity.
  - rewrite fold_left_app. cbn [fold_left link_creativityStars]. reflexivity.
  - destruct (vs_isHubWord validation); lia.
  - destruct (strEq _ _) eqn:E; [now apply strEq_true in E | discriminate].
  - intros Heq. apply strEq_true in Heq. now rewrite Heq.
  - destruct (strEq _ _); auto.
Qed.

Lemma hubLinks_snoc (chain : list ChainLink) (l : ChainLink) :
  hubLinks (chain ++ [l])
  = hubLinks chain + (if link_isHubWord l then 1 else 0).
Proof.
  unfold hubLinks. rewrite filter_app, length_app.
  destruct (link_isHubWord l) eqn:E.
  - rewrite filter_cons_True by exact E. rewrite filter_nil.
    cbn [List.length]. lia.
  - rewrite filter_cons_False by congruence. rewrite filter_nil.
    cbn [List.length]. lia.
Qed.

Lemma perform_keeps_penalty (b : Browser) (a : Action) :
  gs_penaltySteps (store b) = hubLinks (gs_chain (store b)) ->
  gs_penaltySteps (store (perform b a))
  = hubLinks (gs_chain (store (perform b a))).
Proof.
  intros Hinv. destruct a; cbn; try exact Hinv; try reflexivity.
  - unfold initGame.
    destruct (_ && _); cbn; [exact Hinv | reflexivity].
  - rewrite hubLinks_snoc. cbn [link_isHubWord].
    destruct (vs_isHubWord validation); lia.
Qed.

Lemma penalty_invariant (actions : list Action) (b : Browser) :
  gs_penaltySteps (store b) = hubLinks (gs_chain (store b)) ->
  gs_penaltySteps (store (fold_left perform actions b))
  = hubLinks (gs_chain (store (fold_left perform actions b))).
Proof.
  revert b. induction actions as [| a actions IH]; intros b Hb;
    cbn [fold_left].
  - exact Hb.
  - apply IH. now apply perform_keeps_penalty.
Qed.

(** X21.  Whatever calls the page makes on the store, from its initial
    state, the penalty counter is the number of hub-word links of the
    chain, and so lies between 0 and the length of the chain. *)
Theorem X21_penalty_counts_hub_links (actions : list Action)
    (stored : option jsstring) :
  let b := fold_left perform actions
             {| store := initialState; linkup_day := stored |} in
  gs_penaltySteps (store b) = hubLinks (gs_chain (store b))
  /\ 0 <= gs_penaltySteps (store b) <= getChainLength (store b).
Proof.
  cbv zeta.
  pose proof (penalty_invariant actions
                {| store := initialState; linkup_day := stored |} eq_refl)
    as Hinv.
  split; [exact Hinv |].
  rewrite Hinv. unfold hubLinks, getChainLength.
  pose proof (length_filter (fun l => link_isHubWord l = true)
                (gs_chain (store (fold_left perform actions
                   {| store := initialState; linkup_day := stored |})))).
  lia.
Qed.

(** X25.  The score the page shows: for every state the store reaches from
    its initial state, the final score is exactly the length of the chain
    plus the number of its hub-word links minus half its stars, or 0 when
    that is negative. *)
Theorem X25_wonScore (actions : list Action) (stored : option jsstring) :
  let s := store (fold_left perform actions
                    {| store := initialState; linkup_day := stored |}) in
  (finalScore (wonScore s)
   == Math_max 0 (inject_Z (getChainLength s) + inject_Z (hubLinks (gs_chain s))
                  - inject_Z (getTotalStars s) * (1 # 2)))%Q
  /\ steps (wonScore s) = inject_Z (getChainLength s)
  /\ (effectiveSteps (wonScore s)
      == inject_Z (getChainLength s + hubLinks (gs_chain s)))%Q.
Proof.
  cbv zeta.
  pose proof (penalty_invariant actions
                {| store := initialState; linkup_day := stored |} eq_refl)
    as Hinv.
  unfold wonScore. rewrite Hinv. split; [apply finalScore_on_counts |].
  split; [reflexivity |].
  unfold calculateScore. cbn [effectiveSteps]. now rewrite inject_Z_plus.
Qed.

Lemma gameModeEq_true (a b : GameMode) : gameModeEq a b = true <-> a = b.
Proof. destruct a, b; cbn; split; congruence. Qed.

Lemma initGame_resumes (startWord : jsstring) (today : DateParts)
    (b : Browser) :
  gameModeEq (gs_mode (store b)) daily
  && bool_decide (linkup_day b = Some (getTodayKey today))
  && (0 <? Z.of_nat (List.length (gs_chain (store b))))
  && strEq (gs_startWord (store b)) startWord = true
  <-> gs_mode (store b) = daily
      /\ linkup_day b = Some (getTodayKey today)
      /\ gs_chain (store b) <> []
      /\ gs_startWord (store b) = startWord.
Proof.
  rewrite !andb_true_iff, gameModeEq_true, bool_decide_eq_true, strEq_true,
    Z.ltb_lt.
  assert (Hlen : 0 < Z.of_nat (List.length (gs_chain (store b)))
                 <-> gs_chain (store b) <> []).
  { destruct (gs_chain (store b)); cbn [List.length]; split;
      try congruence; lia. }
  rewrite Hlen. tauto.
Qed.

(** X22.  [initGame] always leaves the game playing the given start word,
    with today's key stored.  It keeps the chain only when the stored key
    is today's, the mode is daily, the chain is not empty and the start
    word is the same; otherwise it starts afresh, with the given words and
    seed, an empty chain, no penalty and no failure. *)
Theorem X22_initGame (startWord endWord : jsstring) (seed : Z)
    (today : DateParts) (b : Browser) :
  let b' := initGame startWord endWord seed today b in
  gs_status (store b') = playing
  /\ gs_startWord (store b') = startWord
  /\ linkup_day b' = Some (getTodayKey today)
  /\ gs_mode (store b') = gs_mode (store b)
  /\ (gs_mode (store b) = daily
      /\ linkup_day b = Some (getTodayKey today)
      /\ gs_chain (store b) <> []
      /\ gs_startWord (store b) = startWord ->
      store b' = setStatus playing (store b))
  /\ (gs_mode (store b) <> daily
      \/ linkup_day b <> Some (getTodayKey today)
      \/ gs_chain (store b) = []
      \/ gs_startWord (store b) <> startWord ->
      gs_chain (store b') = []
      /\ gs_penaltySteps (store b') = 0
      /\ gs_lastFailedAttempt (store b') = None
      /\ gs_endWord (store b') = endWord
      /\ gs_dailySeed (store b') = seed).
Proof.
  cbv zeta. unfold initGame.
  pose proof (initGame_resumes startWord today b) as Hiff.
  destruct (gameModeEq (gs_mode (store b)) daily
            && bool_decide (linkup_day b = Some (getTodayKey today))
            && (0 <? Z.of_nat (List.length (gs_chain (store b))))
            && strEq (gs_startWord (store b)) startWord) eqn:Hcond.
  - destruct (proj1 Hiff eq_refl) as (Hmode & Hkey & Hchain & Hstart).
    cbn. split; [reflexivity |]. split; [exact Hstart |].
    split; [exact Hkey |]. split; [reflexivity |]. split; [reflexivity |].
    intros [? | [? | [? | ?]]]; contradiction.
  - assert (Hnot : ~ (gs_mode (store b) = daily
                      /\ linkup_day b = Some (getTodayKey today)
                      /\ gs_chain (store b) <> []
                      /\ gs_startWord (store b) = startWord))
      by (intros Hall; apply Hiff in Hall; discriminate).
    cbn. split; [reflexivity |]. split; [reflexivity |].
    split; [reflexivity |]. split; [reflexivity |].
    split; [intros Hall; contradiction | intros _; auto].
Qed.

End StoreProperties.

(** ** The page: loading a game and growing the chain *)

Section Page.
Context `{Runtime}.

Lemma initGame_playing (startWord endWord : jsstring) (seed : Z)
    (today : DateParts) (b : Browser) :
  gs_status (store (initGame startWord endWord seed today b)) = playing
  /\ gs_startWord (store (initGame startWord endWord seed today b))
     = startWord
  /\ linkup_day (initGame startWord endWord seed today b)
     = Some (getTodayKey today).
Proof.
  unfold initGame.
  pose proof (initGame_resumes startWord today b) as Hiff.
  destruct (gameModeEq (gs_mode (store b)) daily
            && bool_decide (linkup_day b = Some (getTodayKey today))
            && (0 <? Z.of_nat (List.length (gs_chain (store b))))
            && strEq (gs_startWord (store b)) startWord).
  - destruct (proj1 Hiff eq_refl) as (_ & Hkey & _ & Hstart). cbn. auto.
  - cbn. auto.
Qed.

(** X23.  Loading never leaves the game without a puzzle.  For a date
    with a year that is not negative, a month from 0 to 11 and a day from 1
    to 31, the daily load leaves the game playing a start word of the daily
    table, with the key of the day stored; for a value of [Math.random()] in
    [0, 1), the endless load starts a fresh endless game on a pair of the
    practice table. *)
Theorem X23_loadGame (date today : DateParts) (random : Q) (now : Z)
    (b : Browser) :
  (validDate date -> 0 <= fullYear date ->
   let b' := loadGame daily date today random now b in
   gs_status (store b') = playing
   /\ linkup_day b' = Some (getTodayKey today)
   /\ exists p, In p WORD_PAIRS /\ gs_startWord (store b') = pair_start p)
  /\ ((0 <= random)%Q /\ (random < 1)%Q ->
      let b' := loadGame endless date today random now b in
      gs_status (store b') = playing
      /\ gs_mode (store b') = endless
      /\ gs_chain (store b') = []
      /\ gs_penaltySteps (store b') = 0
      /\ gs_dailySeed (store b') = now
      /\ exists p, In p PRACTICE_PAIRS
                   /\ gs_startWord (store b') = pair_start p
                   /\ gs_endWord (store b') = pair_end p).
Proof.
  split.
  - intros [Hmonth Hday] Hyear. cbv zeta. unfold loadGame.
    destruct (getDailyWordPair_nonneg (getDailySeed date))
      as (p & -> & _ & Hin); [unfold getDailySeed; cbv zeta; lia |].
    destruct (initGame_playing (pair_start p) (pair_end p)
                (getDailySeed date) today b) as (Hs & Hw & Hk).
    split; [exact Hs |]. split; [exact Hk |].
    exists p. split; [exact Hin | exact Hw].
  - intros Hrandom. cbv zeta. unfold loadGame.
    pose proof (Qfloor_le (random * 20)) as Hlo.
    pose proof (Qlt_floor (random * 20)) as Hhi.
    rewrite inject_Z_plus in Hhi. change (inject_Z 1) with 1%Q in Hhi.
    unfold getRandomWordPair. cbv zeta. rewrite PRACTICE_PAIRS_length.
    change (inject_Z 20) with 20%Q.
    destruct (elementAt_in_range PRACTICE_PAIRS (Qfloor (random * 20)))
      as (p & -> & _ & Hin).
    { rewrite PRACTICE_PAIRS_length. split.
      - apply Z.lt_succ_r. rewrite Zlt_Qlt.
        unfold Z.succ. rewrite inject_Z_plus. change (inject_Z 1) with 1%Q.
        change (inject_Z 0) with 0%Q. lra.
      - rewrite Zlt_Qlt. change (inject_Z 20) with 20%Q. lra. }
    cbn. do 5 (split; [reflexivity |]).
    exists p. split; [exact Hin |]. split; reflexivity.
Qed.

Lemma usedWordsOf_addLink (v : ValidationSuccess) (now : Z) (s : GameState) :
  usedWordsOf (addLink v now s) = usedWordsOf s ++ [vs_word v].
Proof.
  unfold usedWordsOf, addLink. cbn [gs_startWord gs_chain].
  now rewrite map_app.
Qed.

(** X24.  An accepted word is new to the list it was validated against.
    Whatever the previous word and the used words passed to
    [validateLink], the accepted word, lower-cased, is the normalized
    candidate, differs from the normalized previous word and is none of
    the lower-cased used words; this for a candidate whose normal form is
    stable under the normalization that [verifyWord] applies again.  So
    [addLink] of the acceptance keeps the used words of a store distinct,
    case apart, when that store still holds the used words that were
    validated.  [handleSubmit] awaits the validation and [addLink] reads
    the store after it: the page itself does not ensure that condition,
    it is a hypothesis here. *)
Theorem X24_accepted_word_new (env : Env)
    (previousWord target : jsstring) (usedWords : list jsstring)
    (w w' : World) (v : ValidationSuccess) :
  normalize (normalize target) = normalize target ->
  validateLink env previousWord target usedWords w
    = (Return (Valid v), w') ->
  toLowerCase (vs_word v) = normalize target
  /\ toLowerCase (vs_word v) <> normalize previousWord
  /\ ~ In (toLowerCase (vs_word v)) (map toLowerCase usedWords)
  /\ forall (s : GameState) (now : Z),
       usedWordsOf s = usedWords ->
       NoDup (map toLowerCase usedWords) ->
       NoDup (map toLowerCase (usedWordsOf (addLink v now s))).
Proof.
  intros Hstable Hvalid.
  apply validateLink_Valid_fields in Hvalid
    as (Hother & Hnew & wordData & w1 & Hverify & Hword & _).
  pose proof (verifyWord_inv env (normalize target) w) as Hexact.
  rewrite Hverify, Hstable in Hexact.
  assert (Hsame : toLowerCase (vs_word v) = normalize target)
    by (now rewrite Hword).
  split; [exact Hsame |]. rewrite Hsame.
  split; [exact Hother |]. split; [exact Hnew |].
  intros s now <- Hdistinct.
  rewrite usedWordsOf_addLink, map_app. apply NoDup_app.
  split; [exact Hdistinct |]. split.
  - intros x Hx Hx'. cbn in Hx'. apply list_elem_of_In in Hx.
    apply list_elem_of_In in Hx'. destruct Hx' as [<- | []].
    rewrite Hsame in Hx. contradiction.
  - cbn. apply NoDup_singleton.
Qed.

End Page.

(** ** Repeating a validation *)

Section Repeatable.
Context `{Runtime} (env : Env).
Hypothesis Hsteady : steady env.

Lemma repeatable_ret {A} (a : A) : repeatable env (ret a).
Proof. exists (Return a). intros w Hw. split; [reflexivity | exact Hw]. Qed.

Lemma repeatable_throw {A} (e : JsError) : repeatable env (throw (A := A) e).
Proof. exists (Throw e). intros w Hw. split; [reflexivity | exact Hw]. Qed.

Lemma repeatable_lift {A} (o : Outcome A) : repeatable env (lift o).
Proof. exists o. intros w Hw. split; [reflexivity | exact Hw]. Qed.

Lemma repeatable_bind {A B} (m : Async A) (k : A -> Async B) :
  repeatable env m -> (forall a, repeatable env (k a)) ->
  repeatable env (bind m k).
Proof.
  intros [[a | e] Hm] Hk.
  - destruct (Hk a) as [r Hr]. exists r. intros w Hw.
    destruct (Hm w Hw) as [Hfst Hagree]. unfold bind.
    destruct (m w) as [o w1]. cbn [fst snd] in *. subst o.
    now apply Hr.
  - exists (Throw e). intros w Hw.
    destruct (Hm w Hw) as [Hfst Hagree]. unfold bind.
    destruct (m w) as [o w1]. cbn [fst snd] in *. subst o.
    split; [reflexivity | exact Hagree].
Qed.

Lemma repeatable_cachedFetch (url : jsstring) :
  repeatable env (cachedFetch env url).
Proof.
  exists (Return (networkAnswer (network env 0%nat url))). intros w Hw.
  destruct (fresh_or_stale env url w)
    as [(data & timestamp & Hhit & Hfresh) | Hstale].
  - rewrite (cachedFetch_fresh _ _ _ _ _ Hhit Hfresh). cbn [fst snd].
    split; [now rewrite (Hw _ _ _ Hhit) | exact Hw].
  - split.
    + rewrite (cachedFetch_stale_answer _ _ _ Hstale). f_equal.
      apply Hsteady.
    + rewrite (cachedFetch_request _ _ _ Hstale).
      unfold try_catch, bind, fetch. cbn [tick observed].
      pose proof (Hsteady (S (tick w)) 0%nat url) as Hanswer.
      destruct (network env (S (tick w)) url)
        as [[r_ok r_status r_json] |];
        [destruct r_ok; [destruct r_json as [body |] |] |]; cbn;
        try exact Hw.
      intros url' data timestamp. cbn [cache].
      destruct (decide (url = url')) as [<- | Hne].
      * rewrite lookup_insert_eq. intros [= <- _]. exact Hanswer.
      * rewrite lookup_insert_ne by exact Hne. apply Hw.
Qed.

Lemma repeatable_encode (s : jsstring) :
  repeatable env (encodeURIComponent_or_throw s).
Proof.
  unfold encodeURIComponent_or_throw.
  destruct (encodeURIComponent s);
    [apply repeatable_ret | apply repeatable_throw].
Qed.

Lemma repeatable_findBestRelation_from kinds source target :
  repeatable env (findBestRelation_from env kinds source target).
Proof.
  induction kinds as [| kind kinds IH]; cbn [findBestRelation_from].
  - apply repeatable_ret.
  - apply repeatable_bind.
    + unfold findWordInRelation, getRelatedWords.
      apply repeatable_bind.
      * apply repeatable_bind; [apply repeatable_encode |].
        intros encoded. apply repeatable_cachedFetch.
      * intros related.
        apply repeatable_bind; [apply repeatable_lift |].
        intros [|]; [apply repeatable_ret |].
        apply repeatable_bind; [apply repeatable_lift |].
        intros [m |]; apply repeatable_ret.
    + intros [r |]; [apply repeatable_ret | exact IH].
Qed.

Lemma repeatable_validateLink previousWord inputWord usedWords :
  repeatable env (validateLink env previousWord inputWord usedWords).
Proof.
  unfold validateLink.
  destruct (strEq _ _); [apply repeatable_ret |].
  destruct (includes _ _); [apply repeatable_ret |].
  apply repeatable_bind.
  - unfold verifyWord.
    apply repeatable_bind; [apply repeatable_encode |]. intros encoded.
    apply repeatable_bind; [apply repeatable_cachedFetch |].
    intros results.
    apply repeatable_bind; [apply repeatable_lift |].
    intros found. apply repeatable_ret.
  - intros [wordData |]; [| apply repeatable_ret].
    apply repeatable_bind;
      [apply (repeatable_findBestRelation_from RELATION_PRIORITY) |].
    intros [relation |]; [| apply repeatable_ret].
    apply repeatable_bind; [apply repeatable_lift |].
    intros frequency. apply repeatable_ret.
Qed.

End Repeatable.

(** X26.  With a data source that answers each URL the same way at every
    moment, a validation is repeatable: from any two worlds whose caches
    hold only answers of the data source (an empty cache is one) it gives
    the same result, whatever the clock reads and whatever is cached; and a
    validation run right after another, on the same inputs, gives the
    result of the first. *)
Theorem X26_validateLink_repeatable `{Runtime} (env : Env)
    (previousWord inputWord : jsstring) (usedWords : list jsstring)
    (w1 w2 : World) :
  steady env -> agrees env w1 -> agrees env w2 ->
  fst (validateLink env previousWord inputWord usedWords w1)
  = fst (validateLink env previousWord inputWord usedWords w2)
  /\ agrees env (snd (validateLink env previousWord inputWord usedWords w1))
  /\ fst ((await first := validateLink env previousWord inputWord usedWords in
           validateLink env previousWord inputWord usedWords) w1)
     = fst (validateLink env previousWord inputWord usedWords w1).
Proof.
  intros Hsteady Hw1 Hw2.
  destruct (repeatable_validateLink env Hsteady previousWord inputWord
              usedWords) as [r Hr].
  destruct (Hr w1 Hw1) as [H1 Hagree]. destruct (Hr w2 Hw2) as [H2 _].
  split; [congruence |]. split; [exact Hagree |].
  unfold bind.
  destruct (validateLink env previousWord inputWord usedWords w1)
    as [[first | e] w'] eqn:Hrun; [| reflexivity].
  cbn [fst snd] in *. destruct (Hr w' Hagree) as [H3 _]. congruence.
Qed.

Lemma X26_witness :
  fst (validateLink (H := asciiRuntime) dogCatEnv (js "dog") (js "cat")
         [js "dog"] freshWorld)
  = fst (validateLink (H := asciiRuntime) dogCatEnv (js "dog") (js "cat")
           [js "dog"] cachedCatWorld)
  /\ agrees dogCatEnv
       (snd (validateLink (H := asciiRuntime) dogCatEnv (js "dog") (js "cat")
               [js "dog"] freshWorld))
  /\ fst ((await first := validateLink (H := asciiRuntime) dogCatEnv
                            (js "dog") (js "cat") [js "dog"] in
           validateLink (H := asciiRuntime) dogCatEnv (js "dog") (js "cat")
             [js "dog"]) freshWorld)
     = fst (validateLink (H := asciiRuntime) dogCatEnv (js "dog") (js "cat")
              [js "dog"] freshWorld).
Proof.
  apply (X26_validateLink_repeatable (H := asciiRuntime) dogCatEnv
           (js "dog") (js "cat") [js "dog"] freshWorld cachedCatWorld).
  - intros n m url. reflexivity.
  - intros url data timestamp Hlook. cbn in Hlook.
    rewrite lookup_empty in Hlook. discriminate.
  - intros url data timestamp Hlook. unfold cachedCatWorld in Hlook.
    cbn [cache] in Hlook.
    apply lookup_singleton_Some in Hlook as [<- [= <- _]].
    vm_compute. reflexivity.
Defined.

(** ** Instances of the further properties *)

Lemma X1_witness :
  cachedFetch offlineEnv verifyCatUrl cachedCatWorld
  = (Return (words [catEntry]), observed cachedCatWorld).
Proof.
  apply (proj1 (X1_cachedFetch_hit offlineEnv verifyCatUrl
                  cachedCatWorld (words [catEntry]) 0)).
  - vm_compute. reflexivity.
  - vm_compute. reflexivity.
Defined.

Lemma X2_witness :
  cachedFetch dogCatEnv verifyCatUrl freshWorld
  = (Return (words [catEntry]),
     {| cache := <[verifyCatUrl := (words [catEntry], clock dogCatEnv 0)]>
                   (cache freshWorld);
        tick := 2 |}).
Proof.
  apply (X2_cachedFetch_stores dogCatEnv verifyCatUrl
           freshWorld (okResponse [catEntry]) (words [catEntry])).
  - unfold stale. vm_compute. exact I.
  - vm_compute. reflexivity.
  - reflexivity.
  - reflexivity.
Defined.

Lemma X3_witness :
  fst (cachedFetch offlineEnv verifyCatUrl freshWorld)
  = Return (networkAnswer (network offlineEnv 1 verifyCatUrl))
  /\ (transportFailure (network offlineEnv 1 verifyCatUrl) ->
      cachedFetch offlineEnv verifyCatUrl freshWorld
      = (Return (Items []), observed (observed freshWorld))).
Proof.
  apply (X3_cachedFetch_stale offlineEnv verifyCatUrl
           freshWorld).
  unfold stale. vm_compute. exact I.
Defined.

Lemma X5_witness :
  (await first := cachedFetch dogCatEnv verifyCatUrl in
   cachedFetch dogCatEnv verifyCatUrl) freshWorld
  = (Return (words [catEntry]),
     {| cache := <[verifyCatUrl := (words [catEntry], clock dogCatEnv 0)]>
                   (cache freshWorld);
        tick := 3 |}).
Proof.
  apply (X5_cachedFetch_twice dogCatEnv verifyCatUrl
           freshWorld (okResponse [catEntry]) (words [catEntry])).
  - unfold stale. vm_compute. exact I.
  - vm_compute. reflexivity.
  - reflexivity.
  - reflexivity.
  - vm_compute. reflexivity.
Defined.

Lemma X10_witness :
  exists b w',
    findBestRelation (H := asciiRuntime) zeroTopEnv (js "dog") (js "cat")
      freshWorld = (Return (Some b), w')
    /\ ~ (topScore b == 0)%Q.
Proof.
  eexists _, _. split; [vm_compute; reflexivity |].
  eapply (X10_topScore_nonzero (H := asciiRuntime) zeroTopEnv (js "dog")
            (js "cat") freshWorld).
  vm_compute. reflexivity.
Defined.

Lemma X16_witness :
  exists p, getDailyWordPair 20240131 = Some p
            /\ In p WORD_PAIRS
            /\ getDailyWordPair (20240131 + 30) = Some p.
Proof. apply (proj1 (X16_getDailyWordPair 20240131)). discriminate. Defined.

Lemma X18_witness :
  exists p, getRandomWordPair (37 # 100) = Some p /\ In p PRACTICE_PAIRS.
Proof.
  apply (proj1 (X18_getRandomWordPair (37 # 100))). split; [discriminate | reflexivity].
Defined.

Lemma X23_witness :
  let b' := loadGame daily
              {| fullYear := 2024; month := 0; dayOfMonth := 31 |}
              {| fullYear := 2024; month := 0; dayOfMonth := 31 |} (37 # 100)
              1700000000000
              {| store := initialState; linkup_day := None |} in
  gs_status (store b') = playing
  /\ linkup_day b'
     = Some (getTodayKey {| fullYear := 2024; month := 0; dayOfMonth := 31 |})
  /\ exists p, In p WORD_PAIRS /\ gs_startWord (store b') = pair_start p.
Proof.
  apply (proj1 (X23_loadGame
                  {| fullYear := 2024; month := 0; dayOfMonth := 31 |}
                  {| fullYear := 2024; month := 0; dayOfMonth := 31 |}
                  (37 # 100) 1700000000000
                  {| store := initialState; linkup_day := None |})).
  - unfold validDate. cbn. lia.
  - cbn. lia.
Defined.

Lemma X24_witness :
  exists v,
    toLowerCase (Runtime := asciiRuntime) (vs_word v)
    = normalize (H := asciiRuntime) (js " Cat")
    /\ toLowerCase (Runtime := asciiRuntime) (vs_word v)
       <> normalize (H := asciiRuntime) (js "dog")
    /\ ~ In (toLowerCase (Runtime := asciiRuntime) (vs_word v))
           (map (toLowerCase (Runtime := asciiRuntime)) [js "dog"])
    /\ forall (s : GameState) (now : Z),
         usedWordsOf s = [js "dog"] ->
         NoDup (map (toLowerCase (Runtime := asciiRuntime)) [js "dog"]) ->
         NoDup (map (toLowerCase (Runtime := asciiRuntime))
                  (usedWordsOf (addLink (H := asciiRuntime) v now s))).
Proof.
  eexists.
  eapply (X24_accepted_word_new (H := asciiRuntime) dogCatEnv (js "dog")
            (js " Cat") [js "dog"] freshWorld).
  - vm_compute. reflexivity.
  - vm_compute. reflexivity.
Defined.

Example loadGame_daily_pair :
  gs_startWord
    (store (loadGame daily
              {| fullYear := 2024; month := 0; dayOfMonth := 31 |}
              {| fullYear := 2024; month := 0; dayOfMonth := 31 |} (37 # 100)
              1700000000000
              {| store := initialState; linkup_day := None |}))
  = js "night"
  /\ getTodayKey {| fullYear := 2024; month := 0; dayOfMonth := 31 |}
     = js "2024-1-31"
  /\ getDailySeed {| fullYear := 2024; month := 0; dayOfMonth := 31 |}
     = 20240131.
Proof. split; [| split]; vm_compute; reflexivity. Qed.

Lemma X9_witness :
  getWordFrequency (H := asciiRuntime) catEntry
  = Return (default 0%Q (parseFloat (Runtime := asciiRuntime)
                           (slice 2 (js "f:23.5")))).
Proof.
  apply (proj1 (proj2 (proj2 (X9_getWordFrequency (H := asciiRuntime)
                                catEntry)))
           [js "f:23.5"] (js "f:23.5")); reflexivity.
Defined.

Lemma X11_witness : calculateCreativityStars (10 # 100) (5 # 1000) <= 2.
Proof.
  apply (proj1 (proj2 (X11_stars_range (10 # 100) (5 # 1000)))). reflexivity.
Defined.

Lemma X22_witness :
  let b' := initGame (js "dog") (js "moon") 20240131
              {| fullYear := 2024; month := 0; dayOfMonth := 31 |}
              {| store := addLink (H := asciiRuntime)
                            {| vs_word := js "cat"; vs_relationType := rel_trg;
                               vs_relationLabel := js "Association";
                               vs_heat := 45 # 100; vs_creativityStars := 2;
                               vs_isHubWord := false; vs_frequency := 23 |}
                            5 dogGame;
                 linkup_day := Some (js "2024-1-30") |} in
  gs_chain (store b') = []
  /\ gs_penaltySteps (store b') = 0
  /\ gs_lastFailedAttempt (store b') = None
  /\ gs_endWord (store b') = js "moon"
  /\ gs_dailySeed (store b') = 20240131.
Proof.
  apply (proj2 (proj2 (proj2 (proj2 (proj2
           (X22_initGame (js "dog") (js "moon") 20240131
              {| fullYear := 2024; month := 0; dayOfMonth := 31 |}
              {| store := addLink (H := asciiRuntime)
                            {| vs_word := js "cat"; vs_relationType := rel_trg;
                               vs_relationLabel := js "Association";
                               vs_heat := 45 # 100; vs_creativityStars := 2;
                               vs_isHubWord := false; vs_frequency := 23 |}
                            5 dogGame;
                 linkup_day := Some (js "2024-1-30") |})))))).
  right. left. vm_compute. discriminate.
Defined.
